(** * usb2sock: the USB-to-TCP bridge of fpv_viewer_android

    A shallow embedding of [src/usb2sock/usb2sock.c].  The program is
    single-threaded; its global variables ([clientlist], [clientlist_use])
    become the fields of a [world] record that every function threads, and
    every call it makes to the operating system or to libusb is appended to
    the [trace] of that record.  What the environment answers (the result of
    [accept], [read], [write], [libusb_bulk_transfer], ...) is an explicit
    argument of the function that makes the call, so each function is
    executable and total; a loop that asks for more answers than it was
    given yields [None] (the program is still running). *)

From Stdlib Require Import ZArith List Bool Lia.
Import ListNotations.
Open Scope Z_scope.

(** ** Constants *)

(** The anonymous [enum] of usb2sock.c, lines 74-80. *)
Definition GOGGLES_WANT_CFG : Z := 1.
Definition VENDOR_ID_DJI : Z := 0x2ca3.
Definition DEVICE_ID_GOGGLES : Z := 0x001f.
Definition WAIT_FOR_HOTPLUG : Z := 0xca0.
Definition TCP_SERVER_PORT : Z := 18080.

(** [sizeof(clientlist) / sizeof(clientlist[0])], line 84. *)
Definition CLIENTLIST_LEN : nat := 1024.

(** [sizeof(buf)], line 86. *)
Definition BUF_SIZE : Z := 128 * 1024.

(** [sizeof(MAGIC_PACKET) - 1], line 195. *)
Definition MAGIC_PACKET_LEN : Z := 4.

(** [sizeof(int)] on every platform the program is built for. *)
Definition SIZEOF_INT : nat := 4.

(** Modelled from the spec: the result classes of the hardware boundary
    (success, timeout, I/O error, no-device, not-found, other).  libusb.h is
    included by the program but is not among its sources; the numbers are
    those of libusb's [enum libusb_error] and of [LIBUSB_ENDPOINT_IN]. *)
Definition LIBUSB_SUCCESS : Z := 0.
Definition LIBUSB_ERROR_IO : Z := -1.
Definition LIBUSB_ERROR_INVALID_PARAM : Z := -2.
Definition LIBUSB_ERROR_NO_DEVICE : Z := -4.
Definition LIBUSB_ERROR_NOT_FOUND : Z := -5.
Definition LIBUSB_ERROR_BUSY : Z := -6.
Definition LIBUSB_ERROR_TIMEOUT : Z := -7.
Definition LIBUSB_ENDPOINT_IN : Z := 0x80.

(** Modelled from the spec: the "would block" result of a non-blocking
    socket call.  errno.h is a system header; on Darwin, for which the
    program is written ([SO_NOSIGPIPE]), both names are 35. *)
Definition EAGAIN : Z := 35.
Definition EWOULDBLOCK : Z := 35.
Definition EBADF : Z := 9.
Definition EPIPE : Z := 32.

(** ** Machine integers and the byte image of an [int] array *)

(** [unsigned] arithmetic wraps modulo 2^32. *)
Definition wrap32 (z : Z) : Z := z mod 2 ^ 32.

(** The [int] a 32-bit pattern stands for (two's complement). *)
Definition sint32 (z : Z) : Z :=
  let u := wrap32 z in if u <? 2 ^ 31 then u else u - 2 ^ 32.

Inductive byte_order := LittleEndian | BigEndian.

(** The four bytes of an [int], least significant first. *)
Definition int_bytes_lsb (v : Z) : list Z :=
  let u := wrap32 v in
  [u mod 256; (u / 2 ^ 8) mod 256; (u / 2 ^ 16) mod 256; (u / 2 ^ 24) mod 256].

Definition int_bytes (bo : byte_order) (v : Z) : list Z :=
  match bo with
  | LittleEndian => int_bytes_lsb v
  | BigEndian => rev (int_bytes_lsb v)
  end.

Definition bytes_int_lsb (bs : list Z) : Z :=
  sint32 (fold_right (fun b acc => b + 256 * acc) 0 bs).

Definition bytes_int (bo : byte_order) (bs : list Z) : Z :=
  match bo with
  | LittleEndian => bytes_int_lsb bs
  | BigEndian => bytes_int_lsb (rev bs)
  end.

(** The memory an [int] array occupies, and the array a memory holds. *)
Definition array_bytes (bo : byte_order) (a : list Z) : list Z :=
  flat_map (int_bytes bo) a.

Fixpoint bytes_array (bo : byte_order) (n : nat) (mem : list Z) : list Z :=
  match n with
  | O => []
  | S n' =>
      bytes_int bo (firstn SIZEOF_INT mem)
      :: bytes_array bo n' (skipn SIZEOF_INT mem)
  end.

(** [memmove(mem + dst, mem + src, n)]: [n] BYTES are copied, as if through
    a temporary buffer.  Both ranges lie inside [mem] at every call the
    program makes (outside, C leaves the behaviour undefined). *)
Definition memmove (mem : list Z) (dst src n : nat) : list Z :=
  firstn dst mem ++ firstn n (skipn src mem) ++ skipn (dst + n) mem.

(** The values of an [int]. *)
Definition int_range (v : Z) : Prop := - 2 ^ 31 <= v < 2 ^ 31.

(** ** The world: the program's globals and the calls it has made *)

Inductive message :=
  | MsgAcceptFailed (errno : Z)
  | MsgInetNtopFailed
  | MsgWrongSize
  | MsgTooManyClients
  | MsgNonblockFailed
  | MsgClient (index : Z)
  | MsgSendIo
  | MsgSendMagic (sent r : Z)
  | MsgSendShort (sent : Z)
  | MsgVideoOff
  | MsgWaitIo
  | MsgWaitNoDev
  | MsgWaitNotFound
  | MsgRx (got r : Z)
  | MsgVideo (clients count kib : Z)
  | MsgGetDescriptorFailed (r : Z)
  | MsgOpenFailed (r : Z)
  | MsgGetConfigurationFailed (r : Z)
  | MsgNeedSetCfg (cfg : Z)
  | MsgSetConfigurationFailed (r : Z)
  | MsgGetConfigDescriptorFailed (r : Z)
  | MsgNoAlt (iface : Z)
  | MsgUnexpectedAlt (iface nalt : Z)
  | MsgClaimFailed (r : Z)
  | MsgGetConfigurationAgainFailed (r : Z)
  | MsgUnexpectedCfg (cfg ncfgs : Z)
  | MsgInitFailed (r : Z)
  | MsgListenerFailed
  | MsgPleasePlugIn (clients : Z).

Inductive event :=
  | Accept (fd : Z)                     (* accept() returned fd >= 0 *)
  | Close (fd : Z)                      (* close(fd) *)
  | Read (fd n : Z)                     (* read(fd, discard, 256) returned n *)
  | Write (fd ofs len n : Z)            (* write(fd, buf + ofs, len) returned n *)
  | Printf (m : message)
  | Usleep (us : Z)
  | UsbOpen
  | UsbClose
  | UsbSetConfiguration (cfg : Z)
  | UsbClaimInterface (iface : Z)
  | UsbBulkOut (len : Z)
  | UsbBulkIn (r transferred : Z)
  | UsbExit.

Record world := mkWorld {
  clientlist : list Z;        (* int clientlist[1024] *)
  clientlist_use : Z;         (* unsigned clientlist_use *)
  trace : list event          (* oldest call first *)
}.

(** The state at program start: globals are zero-initialised. *)
Definition initial_world : world :=
  mkWorld (repeat 0 CLIENTLIST_LEN) 0 [].

Definition log (e : event) (w : world) : world :=
  mkWorld (clientlist w) (clientlist_use w) (trace w ++ [e]).

(** [clientlist[i]] as an rvalue. *)
Definition client_at (w : world) (i : Z) : Z :=
  nth (Z.to_nat i) (clientlist w) 0.

(** [a[i] = v]; nothing is stored outside the array. *)
Fixpoint store (a : list Z) (i : nat) (v : Z) : list Z :=
  match a, i with
  | [], _ => []
  | _ :: a', O => v :: a'
  | x :: a', S i' => x :: store a' i' v
  end.

(** The registered peers: entries [0 .. clientlist_use - 1] of the array. *)
Definition registry (w : world) : list Z :=
  firstn (Z.to_nat (clientlist_use w)) (clientlist w).

(** What the environment answers to one [read] or [write]. *)
Record io_result := mkIo { io_n : Z; io_errno : Z }.

Definition would_block (r : Z) : bool := (r =? EWOULDBLOCK) || (r =? EAGAIN).

(** What the environment answers during one [accept_any_connection]. *)
Record accept_result := mkAccept {
  acc_fd : Z;                 (* return value of accept() *)
  acc_errno : Z;              (* errno when it is negative *)
  acc_ntop_ok : bool;         (* inet_ntop() succeeded *)
  acc_saddrlen_ok : bool;     (* saddrlen == sizeof(saddr) afterwards *)
  acc_fcntl : Z               (* return value of fcntl(F_SETFL, O_NONBLOCK) *)
}.

(** ** The client registry and the socket fan-out *)

Section Registry.

Variable bo : byte_order.

(** usb2sock.c, lines 88-94. *)
Definition close_client (i : Z) (w : world) : world :=
  let w := log (Close (client_at w i)) w in
  let use := wrap32 (clientlist_use w - 1) in
  let n := wrap32 (use - i) in
  let mem := array_bytes bo (clientlist w) in
  let mem := memmove mem (SIZEOF_INT * Z.to_nat i)
                         (SIZEOF_INT * Z.to_nat (i + 1)) (Z.to_nat n) in
  mkWorld (bytes_array bo (length (clientlist w)) mem) use (trace w).

(** usb2sock.c, lines 96-134. *)
Definition accept_any_connection (a : accept_result) (w : world) : world :=
  let clientfd := acc_fd a in
  if clientfd <? 0 then
    let r := acc_errno a in
    if would_block r then w
    else log (Printf (MsgAcceptFailed r)) w
  else
    let w := log (Accept clientfd) w in
    let w := if acc_ntop_ok a then w else log (Printf MsgInetNtopFailed) w in
    if negb (acc_saddrlen_ok a) then log (Printf MsgWrongSize) w
    else if Z.of_nat CLIENTLIST_LEN <=? clientlist_use w then
      log (Close clientfd) (log (Printf MsgTooManyClients) w)
    else
      let w :=
        if acc_fcntl a =? 0 then w
        else log (Close clientfd) (log (Printf MsgNonblockFailed) w) in
      let w := log (Printf (MsgClient (clientlist_use w))) w in
      mkWorld (store (clientlist w) (Z.to_nat (clientlist_use w)) clientfd)
              (wrap32 (clientlist_use w + 1)) (trace w).

(** usb2sock.c, lines 136-158.  [reads] holds the answers to the successive
    [read] calls; the loop variable is [i]. *)
Fixpoint recv_loop (reads : list io_result) (i : Z) (w : world)
  : option world :=
  if i <? clientlist_use w then
    match reads with
    | [] => None
    | rd :: reads' =>
        let n := io_n rd in
        let w := log (Read (client_at w i) n) w in
        if n <? 0 then
          if would_block (io_errno rd) then recv_loop reads' (wrap32 (i + 1)) w
          else recv_loop reads' i (close_client i w)
        else if n =? 0 then recv_loop reads' i (close_client i w)
        else recv_loop reads' i w
    end
  else Some w.

Definition recv_and_discard (reads : list io_result) (w : world)
  : option world :=
  recv_loop reads 0 w.

(** usb2sock.c, lines 160-187.  [writes] holds the answers to the successive
    [write] calls; the loop variables are [ofs] and [i]. *)
Fixpoint send_loop (writes : list io_result) (buflen ofs i : Z) (w : world)
  : option world :=
  if i <? clientlist_use w then
    match writes with
    | [] => None
    | wr :: writes' =>
        let n := io_n wr in
        let w := log (Write (client_at w i) ofs (buflen - ofs) n) w in
        if n <? 0 then
          if negb (would_block (io_errno wr)) then
            send_loop writes' buflen 0 i (close_client i w)
          else send_loop writes' buflen 0 (wrap32 (i + 1)) w
        else if 0 <? n then
          let ofs := ofs + n in
          if ofs <? buflen then send_loop writes' buflen ofs i w
          else send_loop writes' buflen 0 (wrap32 (i + 1)) w
        else send_loop writes' buflen 0 (wrap32 (i + 1)) w
    end
  else Some w.

Definition send_to_socket (writes : list io_result) (buflen : Z) (w : world)
  : option world :=
  send_loop writes buflen 0 0 w.

End Registry.

(** ** USB descriptors and what a device answers *)

(** [struct libusb_endpoint_descriptor], [libusb_interface_descriptor],
    [libusb_interface] and [libusb_config_descriptor]: the fields the
    program reads.  An array and its count ([endpoint]/[bNumEndpoints],
    [altsetting]/[num_altsetting], [interface]/[bNumInterfaces]) are one
    list. *)
Record endpoint_descriptor := mkEndpoint { bEndpointAddress : Z }.

Record interface_descriptor := mkAlt {
  bInterfaceClass : Z;
  bInterfaceSubClass : Z;
  endpoint : list endpoint_descriptor
}.

Record interface := mkInterface { altsetting : list interface_descriptor }.

Record config_descriptor := mkConfig { interfaces : list interface }.

(** What the environment answers during one iteration of the streaming
    loop. *)
Record tick := mkTick {
  tk_accept : accept_result;
  tk_reads : list io_result;
  tk_bulk : Z * Z;              (* bulk IN: result, bytes transferred *)
  tk_writes : list io_result
}.

(** What libusb answers for one attached device, call by call. *)
Record usb_device := mkDevice {
  dev_get_device_descriptor : Z;
  idVendor : Z;
  idProduct : Z;
  bNumConfigurations : Z;
  dev_open : Z;
  dev_get_configuration : Z * Z;          (* result, cfg *)
  dev_set_configuration : Z;
  dev_get_config_descriptor : Z;
  dev_cdesc : config_descriptor;
  dev_claim_interface : Z -> Z;           (* by interface number *)
  dev_get_configuration_again : Z * Z;    (* result, cfg, after the claim *)
  dev_magic : Z * Z;                      (* bulk OUT: result, bytes sent *)
  dev_stream : list tick
}.

(** The three locals [find_FF_43], [inEndpoint], [outEndpoint] of
    [start_with_a_device]. *)
Record resolved := mkResolved {
  find_FF_43 : Z;
  inEndpoint : Z;
  outEndpoint : Z
}.

(** The innermost loop, lines 328-339: the first IN and the first OUT
    endpoint address of one alternate setting. *)
Fixpoint scan_endpoints (eps : list endpoint_descriptor) (firstIn firstOut : Z)
  : Z * Z :=
  match eps with
  | [] => (firstIn, firstOut)
  | dep :: eps' =>
      let dir := Z.land (bEndpointAddress dep) LIBUSB_ENDPOINT_IN in
      let firstIn :=
        if negb (dir =? 0) && (firstIn =? -1) then bEndpointAddress dep
        else firstIn in
      let firstOut :=
        if (dir =? 0) && (firstOut =? -1) then bEndpointAddress dep
        else firstOut in
      scan_endpoints eps' firstIn firstOut
  end.

(** The loop over [j], lines 321-350, for interface [i] with [nalt]
    alternate settings. *)
Fixpoint scan_altsettings (alts : list interface_descriptor) (i nalt j : Z)
    (s : resolved) (w : world) : resolved * world :=
  match alts with
  | [] => (s, w)
  | alt :: alts' =>
      let '(firstIn, firstOut) := scan_endpoints (endpoint alt) (-1) (-1) in
      let ff43 :=
        (bInterfaceClass alt =? 0xff) && (bInterfaceSubClass alt =? 0x43) in
      let '(s, w) :=
        if (j =? 0) && ff43 then
          if negb (firstIn =? -1) && negb (firstOut =? -1)
          then (mkResolved i firstIn firstOut, w)
          else (s, w)
        else if ff43 then (s, log (Printf (MsgUnexpectedAlt i nalt)) w)
        else (s, w) in
      scan_altsettings alts' i nalt (j + 1) s w
  end.

(** The loop over [i], lines 317-351. *)
Fixpoint scan_interfaces (ifaces : list interface) (i : Z)
    (s : resolved) (w : world) : resolved * world :=
  match ifaces with
  | [] => (s, w)
  | iface :: ifaces' =>
      let nalt := Z.of_nat (length (altsetting iface)) in
      let w := if nalt =? 0 then log (Printf (MsgNoAlt i)) w else w in
      let '(s, w) := scan_altsettings (altsetting iface) i nalt 0 s w in
      scan_interfaces ifaces' (i + 1) s w
  end.

(** ** The streaming loop and device discovery *)

(** How one pass through the body of [for (;; count++)] ends. *)
Inductive loop_ctl :=
  | Next (count : Z)      (* falls off the end of the body *)
  | Return_ (r : Z).      (* a [return r] *)

Section Bridge.

Variable bo : byte_order.

(** The if-chain on the result of the bulk IN transfer, lines 237-260. *)
Definition classify_bulk_in (r success : Z) (writes : list io_result)
    (count : Z) (w : world) : option (loop_ctl * world) :=
  if (r =? LIBUSB_ERROR_TIMEOUT) && (success =? 0) then
    Some (Next 0, log (Usleep (500 * 1000)) (log (Printf MsgVideoOff) w))
  else if r =? LIBUSB_ERROR_IO then
    Some (Return_ WAIT_FOR_HOTPLUG, log (Printf MsgWaitIo) w)
  else if r =? LIBUSB_ERROR_NO_DEVICE then
    Some (Return_ WAIT_FOR_HOTPLUG, log (Printf MsgWaitNoDev) w)
  else if r =? LIBUSB_ERROR_NOT_FOUND then
    Some (Return_ WAIT_FOR_HOTPLUG, log (Printf MsgWaitNotFound) w)
  else if negb (r =? 0) then
    Some (Return_ r, log (Printf (MsgRx success r)) w)
  else
    let w :=
      log (Printf (MsgVideo (clientlist_use w) count (Z.quot success 1024))) w in
    match send_to_socket bo writes success w with
    | None => None
    | Some w => Some (Next count, w)
    end.

(** The body of the loop, lines 232-260. *)
Definition stream_iteration (t : tick) (count : Z) (w : world)
  : option (loop_ctl * world) :=
  let w := accept_any_connection (tk_accept t) w in
  match recv_and_discard bo (tk_reads t) w with
  | None => None
  | Some w =>
      let '(r, success) := tk_bulk t in
      let w := log (UsbBulkIn r success) w in
      classify_bulk_in r success (tk_writes t) count w
  end.

(** [for (;; count++)], lines 231-261; [count] is a [uint32_t]. *)
Fixpoint stream_loop (ticks : list tick) (count : Z) (w : world)
  : option (Z * world) :=
  match ticks with
  | [] => None
  | t :: ticks' =>
      match stream_iteration t count w with
      | None => None
      | Some (Return_ r, w) => Some (r, w)
      | Some (Next count, w) => stream_loop ticks' (wrap32 (count + 1)) w
      end
  end.

(** usb2sock.c, lines 190-264.  [magic] is what the bulk OUT transfer of
    the magic packet answers. *)
Definition start_stream (magic : Z * Z) (ticks : list tick) (w : world)
  : option (Z * world) :=
  let '(r, success) := magic in
  let w := log (UsbBulkOut MAGIC_PACKET_LEN) w in
  if (r =? LIBUSB_ERROR_TIMEOUT) && (success =? 0) then
    stream_loop ticks 0 w
  else if r =? LIBUSB_ERROR_IO then
    Some (WAIT_FOR_HOTPLUG, log (Printf MsgSendIo) w)
  else if negb (r =? 0) then
    Some (r, log (Printf (MsgSendMagic success r)) w)
  else if negb (success =? MAGIC_PACKET_LEN) then
    Some (LIBUSB_ERROR_TIMEOUT, log (Printf (MsgSendShort success)) w)
  else stream_loop ticks 0 w.

(** Lines 289-306: [None] when the device goes on to the configuration
    descriptor, [Some r] on the [return r] of line 302. *)
Definition configure (d : usb_device) (w : world) : option Z * world :=
  let '(r, cfg) := dev_get_configuration d in
  if negb (r =? 0) then (None, log (Printf (MsgGetConfigurationFailed r)) w)
  else if cfg =? 0 then
    let w := log (Printf (MsgNeedSetCfg cfg)) w in
    let w := log (UsbSetConfiguration GOGGLES_WANT_CFG) w in
    let r := dev_set_configuration d in
    if negb (r =? 0) then
      (Some r, log (Printf (MsgSetConfigurationFailed r)) w)
    else (None, w)
  else (None, w).

(** Lines 353-376: from the claim to the end of the function. *)
Definition claim_and_stream (d : usb_device) (s : resolved) (w : world)
  : option (Z * world) :=
  let w := log (UsbClaimInterface (find_FF_43 s)) w in
  let r := dev_claim_interface d (find_FF_43 s) in
  if negb (r =? 0) then
    Some (r, log UsbClose (log (Printf (MsgClaimFailed r)) w))
  else
    let '(r, cfg) := dev_get_configuration_again d in
    if negb (r =? 0) then
      Some (r, log UsbClose (log (Printf (MsgGetConfigurationAgainFailed r)) w))
    else
      let w :=
        if negb (cfg =? 1) || negb (bNumConfigurations d =? 1)
        then log (Printf (MsgUnexpectedCfg cfg (bNumConfigurations d))) w
        else w in
      match start_stream (dev_magic d) (dev_stream d) w with
      | None => None
      | Some (r, w) => Some (r, log UsbClose w)
      end.

(** usb2sock.c, lines 266-377. *)
Definition start_with_a_device (d : usb_device) (w : world)
  : option (Z * world) :=
  let r := dev_get_device_descriptor d in
  if negb (r =? 0) then Some (r, log (Printf (MsgGetDescriptorFailed r)) w)
  else if negb (idVendor d =? VENDOR_ID_DJI)
          || negb (idProduct d =? DEVICE_ID_GOGGLES) then
    Some (VENDOR_ID_DJI, w)
  else
    let r := dev_open d in
    if negb (r =? 0) then Some (WAIT_FOR_HOTPLUG, log (Printf (MsgOpenFailed r)) w)
    else
      let w := log UsbOpen w in
      match configure d w with
      | (Some r, w) => Some (r, w)
      | (None, w) =>
          let r := dev_get_config_descriptor d in
          if negb (r =? 0) then
            Some (r, log (Printf (MsgGetConfigDescriptorFailed r)) w)
          else
            let '(s, w) :=
              scan_interfaces (interfaces (dev_cdesc d)) 0
                              (mkResolved (-1) (-1) (-1)) w in
            claim_and_stream d s w
      end.

End Bridge.

(** ** The supervisor *)

(** What the environment answers during one iteration of the outer loop of
    [start_usb2sock]: [libusb_get_device_list] returns [ps_cnt] and the
    NULL-terminated array [ps_devs]. *)
Record pass := mkPass {
  ps_accept : accept_result;
  ps_reads : list io_result;
  ps_cnt : Z;
  ps_devs : list usb_device
}.

(** The results of the set-up calls of [start_usb2sock], lines 389-442. *)
Record startup := mkStartup {
  su_init_context : Z;
  su_socket : Z;
  su_reuseaddr : Z;
  su_nosigpipe : Z;
  su_bind : Z;
  su_listen : Z;
  su_nonblock : Z
}.

(** How the outer loop goes on after the device scan, lines 457-466. *)
Inductive verdict :=
  | ExitZero          (* line 457: [if (r == 0) break] *)
  | ExitFailed        (* line 458-461: something failed, [break] *)
  | WaitAndRetry.     (* lines 462-466: print the prompt, sleep, loop *)

Definition supervise (r : Z) : verdict :=
  if r =? 0 then ExitZero
  else if negb (r =? WAIT_FOR_HOTPLUG) && negb (r =? VENDOR_ID_DJI)
  then ExitFailed
  else WaitAndRetry.

Section Supervisor.

Variable bo : byte_order.

(** The loop over [devs], lines 451-455; [r] is the value the variable
    holds when the loop is entered. *)
Fixpoint try_devices (devs : list usb_device) (i cnt r : Z) (w : world)
  : option (Z * world) :=
  match devs with
  | [] => Some (r, w)
  | d :: devs' =>
      if i <? cnt then
        match start_with_a_device bo d w with
        | None => None
        | Some (r, w) =>
            if r =? VENDOR_ID_DJI then try_devices devs' (i + 1) cnt r w
            else Some (r, w)
        end
      else Some (r, w)
  end.

(** [for (;;)], lines 444-471, with the [libusb_exit] and [return r] that
    follow it. *)
Fixpoint supervisor_loop (passes : list pass) (w : world)
  : option (Z * world) :=
  match passes with
  | [] => None
  | p :: passes' =>
      let w := accept_any_connection (ps_accept p) w in
      match recv_and_discard bo (ps_reads p) w with
      | None => None
      | Some w =>
          if 0 <=? ps_cnt p then
            match try_devices (ps_devs p) 0 (ps_cnt p) 0 w with
            | None => None
            | Some (r, w) =>
                match supervise r with
                | ExitZero | ExitFailed => Some (r, log UsbExit w)
                | WaitAndRetry =>
                    supervisor_loop passes'
                      (log (Usleep (500 * 1000))
                         (log (Printf (MsgPleasePlugIn (clientlist_use w))) w))
                end
            end
          else supervisor_loop passes' w
      end
  end.

(** usb2sock.c, lines 379-472. *)
Definition start_usb2sock (su : startup) (passes : list pass) (w : world)
  : option (Z * world) :=
  let r := su_init_context su in
  if r <? 0 then Some (r, log (Printf (MsgInitFailed r)) w)
  else if (su_socket su <? 0)
          || negb (su_reuseaddr su =? 0) || negb (su_nosigpipe su =? 0)
          || negb (su_bind su =? 0) || negb (su_listen su =? 0)
          || negb (su_nonblock su =? 0) then
    Some (1, log (Printf MsgListenerFailed) w)
  else supervisor_loop passes w.

End Supervisor.

(** ** Observations on a run *)

(** What a run shows: the registered peers and the calls made, with the
    value returned where there is one. *)
Definition observe (w : world) : list Z * list event :=
  (registry w, trace w).

Definition observe_run (res : option world) : option (list Z * list event) :=
  option_map observe res.

Definition observe_return (res : option (Z * world))
  : option (Z * list event) :=
  option_map (fun p => (fst p, trace (snd p))) res.

(** The byte ranges [(ofs, n)] of [buf] that the peer behind [fd] was
    handed: the [write] calls on [fd] that returned [n > 0]. *)
Fixpoint delivered (fd : Z) (tr : list event) : list (Z * Z) :=
  match tr with
  | [] => []
  | Write fd' ofs _ n :: tr' =>
      if (fd' =? fd) && (0 <? n) then (ofs, n) :: delivered fd tr'
      else delivered fd tr'
  | _ :: tr' => delivered fd tr'
  end.

(** The ranges, read in order, make up [buf[0 .. m)] for some [m <= len]:
    each begins at [next], where the one before ended. *)
Fixpoint chained (next len : Z) (ranges : list (Z * Z)) : bool :=
  match ranges with
  | [] => next <=? len
  | (ofs, n) :: ranges' => (ofs =? next) && chained (next + n) len ranges'
  end.

Definition is_prefix_delivery (len : Z) (ranges : list (Z * Z)) : bool :=
  chained 0 len ranges.

Definition is_close (fd : Z) (e : event) : bool :=
  match e with Close fd' => fd' =? fd | _ => false end.

Definition is_read (fd : Z) (e : event) : bool :=
  match e with Read fd' _ => fd' =? fd | _ => false end.

Definition is_write (e : event) : bool :=
  match e with Write _ _ _ _ => true | _ => false end.

(** How often [fd] was closed, and how often it was read. *)
Definition closes (fd : Z) (tr : list event) : nat :=
  length (filter (is_close fd) tr).

Definition reads_of (fd : Z) (tr : list event) : nat :=
  length (filter (is_read fd) tr).

(** The spec's [removeAt]: entry [i] leaves, the entries above it move down
    by one, nothing else changes. *)
Definition remove_at (i : nat) (l : list Z) : list Z :=
  firstn i l ++ skipn (S i) l.

(** ** Assumptions on the environment, in the words of the claims *)

(** The contract of [write]: it never reports more bytes than it was asked
    to send. *)
Definition posix_write (e : event) : Prop :=
  match e with
  | Write _ _ len n => n <= len
  | _ => True
  end.

(** An answer to [read] or [write] that is no hard error. *)
Definition soft (io : io_result) : Prop :=
  io_n io < 0 -> would_block (io_errno io) = true.

(** A read that finds the peer silent: would block. *)
Definition quiet (io : io_result) : Prop :=
  io_n io < 0 /\ would_block (io_errno io) = true.

(** The peers at index [i] and above. *)
Definition peers_from (w : world) (i : Z) : list Z :=
  skipn (Z.to_nat i) (registry w).

(** Where the peer [fd] stands in the frame when the loop is at index [i]
    with offset [ofs]. *)
Definition start_ofs (w : world) (i ofs fd : Z) : Z :=
  if (i <? clientlist_use w) && (fd =? client_at w i) then ofs else 0.

(** The [read] calls of a drain in which each peer at index [i] and above
    is read once, in registry order. *)
Definition reads_in_order (w : world) (i : Z) (reads : list io_result)
  : list event :=
  map (fun p => Read (fst p) (io_n (snd p))) (combine (peers_from w i) reads).

(** The direction bit of an endpoint address, as lines 333 and 336 test
    it. *)
Definition is_in_endpoint (dep : endpoint_descriptor) : bool :=
  negb (Z.land (bEndpointAddress dep) LIBUSB_ENDPOINT_IN =? 0).

Definition is_out_endpoint (dep : endpoint_descriptor) : bool :=
  Z.land (bEndpointAddress dep) LIBUSB_ENDPOINT_IN =? 0.

(** An alternate setting of class 0xFF, subclass 0x43 with both an IN and
    an OUT endpoint. *)
Definition usable_ff43 (alt : interface_descriptor) : bool :=
  (bInterfaceClass alt =? 0xff) && (bInterfaceSubClass alt =? 0x43)
  && existsb is_in_endpoint (endpoint alt)
  && existsb is_out_endpoint (endpoint alt).

(** Some interface has such an alternate setting at index 0. *)
Definition exposes_ff43 (c : config_descriptor) : bool :=
  existsb (fun iface =>
             match altsetting iface with
             | alt :: _ => usable_ff43 alt
             | [] => false
             end) (interfaces c).

(** A device that is not the goggles: its descriptor is read and its
    identity differs. *)
Definition wrong_device (d : usb_device) : Prop :=
  dev_get_device_descriptor d = 0
  /\ (idVendor d <> VENDOR_ID_DJI \/ idProduct d <> DEVICE_ID_GOGGLES).

(** ** Concrete environments *)

Definition accepted (fd : Z) : accept_result := mkAccept fd 0 true true 0.

Definition nothing_pending : accept_result := mkAccept (-1) EAGAIN true true 0.

(** A peer whose socket could not be made non-blocking. *)
Definition accepted_fcntl_failed (fd : Z) : accept_result :=
  mkAccept fd 0 true true (-1).

(** Three peers, accepted one after the other as descriptors 3, 4 and 5. *)
Definition three_peers : world :=
  accept_any_connection (accepted 5)
    (accept_any_connection (accepted 4)
       (accept_any_connection (accepted 3) initial_world)).

(** The trace of [three_peers]. *)
Definition three_accepts : list event :=
  [Accept 3; Printf (MsgClient 0); Accept 4; Printf (MsgClient 1);
   Accept 5; Printf (MsgClient 2)].

(** A frame of 100 bytes: peer 3 takes it in two writes, peer 4 takes 30
    bytes and then would block, peer 5 takes it whole. *)
Definition three_peers_after_frame : world :=
  mkWorld (clientlist three_peers) (clientlist_use three_peers)
          (trace three_peers
           ++ [Write 3 0 100 40; Write 3 40 60 60; Write 4 0 100 30;
               Write 4 30 70 (-1); Write 5 0 100 100]).

(** A registry of four slots holding the peers 3, 4 and 5. *)
Definition small_registry : world := mkWorld [3; 4; 5; 0] 3 [].

Definition startup_ok : startup := mkStartup 0 3 0 0 0 0 0.

(** [libusb_get_device_list] finds no device at all. *)
Definition empty_pass : pass := mkPass nothing_pending [] 0 [].

(** A device that is not the goggles: the vendor id of some other maker. *)
Definition some_hub : usb_device :=
  mkDevice 0 0x05ac 0x8006 1 0 (0, 1) 0 0 (mkConfig []) (fun _ => 0)
           (0, 1) (0, 4) [].

(** The goggles with one vendor interface 0xFF/0x43 that has a bulk IN
    endpoint 0x84 and a bulk OUT endpoint 0x03. *)
Definition goggles_cdesc : config_descriptor :=
  mkConfig [mkInterface [mkAlt 0xff 0x43 [mkEndpoint 0x84; mkEndpoint 0x03]]].

(** The goggles, unconfigured, refusing [libusb_set_configuration]. *)
Definition goggles_set_configuration_fails : usb_device :=
  mkDevice 0 VENDOR_ID_DJI DEVICE_ID_GOGGLES 1 0 (0, 0) LIBUSB_ERROR_BUSY 0
           goggles_cdesc (fun _ => 0) (0, 1) (0, 4) [].

(** The goggles, failing [libusb_get_config_descriptor]. *)
Definition goggles_config_descriptor_fails : usb_device :=
  mkDevice 0 VENDOR_ID_DJI DEVICE_ID_GOGGLES 1 0 (0, 1) 0
           LIBUSB_ERROR_NOT_FOUND goggles_cdesc (fun _ => 0) (0, 1) (0, 4) [].

(** A device with the goggles' identity whose only interface is a mass
    storage one: libusb refuses the claim of interface -1. *)
Definition goggles_without_ff43 : usb_device :=
  mkDevice 0 VENDOR_ID_DJI DEVICE_ID_GOGGLES 1 0 (0, 1) 0 0
           (mkConfig [mkInterface [mkAlt 0x08 0x06 [mkEndpoint 0x81; mkEndpoint 0x02]]])
           (fun i => if i <? 0 then LIBUSB_ERROR_INVALID_PARAM else 0)
           (0, 1) (0, 4) [].

(** The goggles answer the magic packet, stream nothing for one read and
    are then unplugged. *)
Definition goggles_unplugged : usb_device :=
  mkDevice 0 VENDOR_ID_DJI DEVICE_ID_GOGGLES 1 0 (0, 1) 0 0 goggles_cdesc
           (fun _ => 0) (0, 1) (0, 4)
           [mkTick nothing_pending [] (LIBUSB_ERROR_TIMEOUT, 0) [];
            mkTick nothing_pending [] (LIBUSB_ERROR_NO_DEVICE, 0) []].

(** ** Further notions: the registry within its array *)

(** The array has its declared size and the count lies within it. *)
Definition registry_ok (w : world) : Prop :=
  length (clientlist w) = CLIENTLIST_LEN
  /\ 0 <= clientlist_use w <= Z.of_nat CLIENTLIST_LEN.

(** The registry part of two worlds is the same. *)
Definition same_registry (w w' : world) : Prop :=
  clientlist w' = clientlist w /\ clientlist_use w' = clientlist_use w.

(** An [accept] that returned a descriptor with an address of the right
    size. *)
Definition connection_arrived (a : accept_result) : Prop :=
  0 <= acc_fd a /\ acc_saddrlen_ok a = true.

(** A world whose registry is full: 1024 descriptors 3, 3, ... (only the
    count matters to the capacity test). *)
Definition full_registry : world :=
  mkWorld (repeat 3 CLIENTLIST_LEN) (Z.of_nat CLIENTLIST_LEN) [].

(** An accepted connection whose address came back with the wrong size. *)
Definition accepted_wrong_size (fd : Z) : accept_result :=
  mkAccept fd 0 true false 0.

(** A descriptor that fits one byte. *)
Definition small (v : Z) : Prop := 0 <= v < 256.

(** The number of [int]s that [n] bytes reach into: [n / 4], rounded up. *)
Fixpoint quarters (n : nat) : nat :=
  match n with
  | S (S (S (S n'))) => S (quarters n')
  | O => O
  | _ => 1
  end.

(** A registry of eight slots holding the peers 3, 4, 5, 6, 7, 8. *)
Definition six_peers : world := mkWorld [3; 4; 5; 6; 7; 8; 0; 0] 6 [].

(** A read that brings data. *)
Definition talkative (io : io_result) : Prop := 0 < io_n io.

(** A read or write that ends the peer: end of file, or a hard error. *)
Definition fatal_io (io : io_result) : Prop :=
  io_n io = 0 \/ (io_n io < 0 /\ would_block (io_errno io) = false).

(** A write that takes everything it is given of a frame of [len] bytes. *)
Definition takes_all (len : Z) (io : io_result) : Prop := io_n io = len.

(** An upper bound on the [write] calls [send_to_socket] still has to make
    when its loop stands at index [i] with offset [ofs]. *)
Definition writes_needed (buflen ofs i use : Z) : Z :=
  if i <? use
  then (use - i - 1) * Z.max 1 buflen + Z.max 1 (buflen - ofs)
  else 0.

(** [bEndpointAddress] is a [uint8_t]. *)
Definition valid_address (dep : endpoint_descriptor) : Prop :=
  0 <= bEndpointAddress dep < 256.

(** The address of the first IN (OUT) endpoint of a list, -1 when there is
    none. *)
Definition first_in_address (eps : list endpoint_descriptor) : Z :=
  match find is_in_endpoint eps with
  | Some dep => bEndpointAddress dep
  | None => -1
  end.

Definition first_out_address (eps : list endpoint_descriptor) : Z :=
  match find is_out_endpoint eps with
  | Some dep => bEndpointAddress dep
  | None => -1
  end.

(** A configuration with a HID interface, then two usable 0xFF/0x43
    interfaces: number 1 with endpoints 0x81 / 0x01 and number 2 with
    endpoints 0x03 / 0x84 / 0x85. *)
Definition two_vendor_interfaces : list interface :=
  [mkInterface [mkAlt 0x03 0x00 [mkEndpoint 0x86]];
   mkInterface [mkAlt 0xff 0x43 [mkEndpoint 0x81; mkEndpoint 0x01]];
   mkInterface [mkAlt 0xff 0x43 [mkEndpoint 0x03; mkEndpoint 0x84;
                                 mkEndpoint 0x85]]].

(** Every set-up call of [start_usb2sock] succeeded. *)
Definition setup_succeeded (su : startup) : Prop :=
  0 <= su_init_context su /\ 0 <= su_socket su
  /\ su_reuseaddr su = 0 /\ su_nosigpipe su = 0
  /\ su_bind su = 0 /\ su_listen su = 0 /\ su_nonblock su = 0.

(** An [accept] that finds no connection waiting. *)
Definition no_connection (a : accept_result) : Prop :=
  acc_fd a < 0 /\ would_block (acc_errno a) = true.

(** An iteration in which three peers are silent and the bulk read finds
    the device gone. *)
Definition device_gone_tick : tick :=
  mkTick nothing_pending
         [mkIo (-1) EAGAIN; mkIo (-1) EAGAIN; mkIo (-1) EAGAIN]
         (LIBUSB_ERROR_NO_DEVICE, 0) [].

(** ** Further environments: a frame in flight, clients that come and go *)

(** An iteration in which three peers are silent and the bulk read brings
    a frame of 100 bytes; [writes] is what the sockets answer to it. *)
Definition frame_tick (writes : list io_result) : tick :=
  mkTick nothing_pending
         [mkIo (-1) EAGAIN; mkIo (-1) EAGAIN; mkIo (-1) EAGAIN]
         (0, 100) writes.

(** An iteration in which three peers are silent and the bulk read times
    out with nothing transferred: no video signal. *)
Definition no_signal_tick : tick :=
  mkTick nothing_pending
         [mkIo (-1) EAGAIN; mkIo (-1) EAGAIN; mkIo (-1) EAGAIN]
         (LIBUSB_ERROR_TIMEOUT, 0) [].

(** An iteration in which three peers are silent and the bulk read fails
    with [r] after [n] bytes. *)
Definition failing_tick (r n : Z) : tick :=
  mkTick nothing_pending
         [mkIo (-1) EAGAIN; mkIo (-1) EAGAIN; mkIo (-1) EAGAIN]
         (r, n) [].

(** The goggles streaming while clients come and go.  First iteration: a
    third client connects and all three take a frame whole.  Second: the
    first client has closed its socket and is removed by the drain; the
    frame is taken in part by one socket and refused with EPIPE by the
    next, which is removed.  Third: a client connects, no video signal.
    Fourth: the goggles are unplugged. *)
Definition busy_goggles : usb_device :=
  mkDevice 0 VENDOR_ID_DJI DEVICE_ID_GOGGLES 1 0 (0, 1) 0 0 goggles_cdesc
           (fun _ => 0) (0, 1) (0, 4)
           [mkTick (accepted 5)
              [mkIo (-1) EAGAIN; mkIo (-1) EAGAIN; mkIo (-1) EAGAIN]
              (0, 100) [mkIo 100 0; mkIo 100 0; mkIo 100 0];
            mkTick nothing_pending
              [mkIo 0 0; mkIo (-1) EAGAIN; mkIo (-1) EAGAIN]
              (0, 100) [mkIo 40 0; mkIo (-1) EAGAIN; mkIo (-1) EPIPE];
            mkTick (accepted 6)
              [mkIo (-1) EAGAIN; mkIo (-1) EAGAIN]
              (LIBUSB_ERROR_TIMEOUT, 0) [];
            mkTick nothing_pending
              [mkIo (-1) EAGAIN; mkIo (-1) EAGAIN]
              (LIBUSB_ERROR_NO_DEVICE, 0) []].

(** Three passes of the supervisor.  A client connects while only a hub is
    attached; a second client connects and the goggles stream as above;
    after they are unplugged a client closes its socket, and the goggles,
    plugged in again, fail to give their configuration descriptor. *)
Definition busy_passes : list pass :=
  [mkPass (accepted 3) [mkIo (-1) EAGAIN] 1 [some_hub];
   mkPass (accepted 4) [mkIo (-1) EAGAIN; mkIo (-1) EAGAIN] 2
          [some_hub; busy_goggles];
   mkPass nothing_pending [mkIo (-1) EAGAIN; mkIo 0 0] 1
          [goggles_config_descriptor_fails]].

(** The state in which the program ends on [busy_passes], on a
    little-endian machine: one peer is registered, the slots above it hold
    what earlier peers left there. *)
Definition busy_run_end : world :=
  mkWorld (4 :: 6 :: 5 :: repeat 0 1021) 1
    [Accept 3; Printf (MsgClient 0); Read 3 (-1);
     Printf (MsgPleasePlugIn 1); Usleep 500000;
     Accept 4; Printf (MsgClient 1); Read 3 (-1); Read 4 (-1);
     UsbOpen; UsbClaimInterface 0; UsbBulkOut 4;
     Accept 5; Printf (MsgClient 2); Read 3 (-1); Read 4 (-1); Read 5 (-1);
     UsbBulkIn 0 100; Printf (MsgVideo 3 0 0);
     (* the frame, whole, to each *)
     Write 3 0 100 100; Write 4 0 100 100; Write 5 0 100 100;
     Read 3 0; Close 3; Read 4 (-1); Read 4 (-1);
     UsbBulkIn 0 100; Printf (MsgVideo 2 1 0);
     (* 40 bytes, would block; then EPIPE *)
     Write 4 0 100 40; Write 4 40 60 (-1); Write 4 0 100 (-1); Close 4;
     Accept 6; Printf (MsgClient 1); Read 4 (-1); Read 6 (-1);
     UsbBulkIn LIBUSB_ERROR_TIMEOUT 0; Printf MsgVideoOff; Usleep 500000;
     Read 4 (-1); Read 6 (-1);
     UsbBulkIn LIBUSB_ERROR_NO_DEVICE 0; Printf MsgWaitNoDev; UsbClose;
     Printf (MsgPleasePlugIn 2); Usleep 500000;
     Read 4 (-1); Read 6 0; Close 6;
     UsbOpen; Printf (MsgGetConfigDescriptorFailed LIBUSB_ERROR_NOT_FOUND);
     UsbExit].

(** ** Tactics *)

(** Decide the integer tests of an if-chain from the hypotheses. *)
Ltac ztests :=
  repeat match goal with
         | |- context [Z.eqb ?a ?b] =>
             destruct (Z.eqb_spec a b); try lia; try congruence; simpl
         | |- context [Z.ltb ?a ?b] =>
             destruct (Z.ltb_spec a b); try lia; simpl
         | |- context [Z.leb ?a ?b] =>
             destruct (Z.leb_spec a b); try lia; simpl
         end.

(** A test known from the context against what a hypothesis says of it. *)
Ltac by_test H :=
  first [ discriminate H
        | apply Z.ltb_lt in H; lia
        | apply Z.ltb_ge in H; lia ].

(** Split a conjunction into its parts, and nothing else. *)
Ltac conjuncts := repeat match goal with |- _ /\ _ => split end.

(** ** Machine integers: reading back what was stored *)

Lemma wrap32_small z : 0 <= z < 2 ^ 32 -> wrap32 z = z.
Proof. intros H. unfold wrap32. apply Z.mod_small, H. Qed.

Lemma bytes_int_lsb_int_bytes_lsb v :
  int_range v -> bytes_int_lsb (int_bytes_lsb v) = v.
Proof.
  unfold int_range, bytes_int_lsb, int_bytes_lsb, sint32, wrap32.
  intros Hv. cbn [fold_right].
  change (2 ^ 32) with 4294967296 in *. change (2 ^ 31) with 2147483648 in *.
  change (2 ^ 8) with 256. change (2 ^ 16) with 65536.
  change (2 ^ 24) with 16777216.
  set (u := v mod 4294967296).
  assert (Hu : 0 <= u < 4294967296) by (apply Z.mod_pos_bound; lia).
  assert (Hsum : u mod 256
                 + 256 * ((u / 256) mod 256
                          + 256 * ((u / 65536) mod 256
                                   + 256 * ((u / 16777216) mod 256 + 256 * 0)))
                 = u).
  { clear -Hu. Z.div_mod_to_equations. lia. }
  rewrite Hsum.
  replace (u mod 4294967296) with u by (symmetry; apply Z.mod_small; exact Hu).
  subst u. destruct (Z.ltb_spec (v mod 4294967296) 2147483648);
    Z.div_mod_to_equations; lia.
Qed.

Lemma bytes_int_int_bytes bo v :
  int_range v -> bytes_int bo (int_bytes bo v) = v.
Proof.
  intros Hv. destruct bo; unfold bytes_int, int_bytes.
  - apply bytes_int_lsb_int_bytes_lsb, Hv.
  - rewrite rev_involutive. apply bytes_int_lsb_int_bytes_lsb, Hv.
Qed.

(** Reading back the memory of an [int] array gives the array. *)
Lemma bytes_array_array_bytes bo l :
  Forall int_range l -> bytes_array bo (length l) (array_bytes bo l) = l.
Proof.
  induction l as [| v l IH]; intros Hall.
  - reflexivity.
  - inversion Hall as [| ? ? Hv Hrest]; subst.
    cbn [length bytes_array array_bytes flat_map].
    assert (H4 : length (int_bytes bo v) = SIZEOF_INT) by (destruct bo; reflexivity).
    rewrite firstn_app, skipn_app, H4, Nat.sub_diag.
    rewrite <- H4 at 1. rewrite firstn_all. rewrite <- H4 at 1.
    rewrite skipn_all. cbn [firstn skipn app]. rewrite app_nil_r.
    rewrite (bytes_int_int_bytes bo v Hv).
    f_equal. apply IH, Hrest.
Qed.

(** ** The client registry *)

Lemma skipn_nth_cons (l : list Z) : forall n,
  (n < length l)%nat -> skipn n l = nth n l 0 :: skipn (S n) l.
Proof.
  induction l as [| x l IH]; intros n Hn; simpl in Hn.
  - lia.
  - destruct n as [| n]; [reflexivity |].
    rewrite !skipn_cons. cbn [nth]. apply IH. lia.
Qed.

Lemma peers_from_cons w i :
  0 <= i < clientlist_use w ->
  clientlist_use w <= Z.of_nat (length (clientlist w)) ->
  peers_from w i = client_at w i :: peers_from w (i + 1).
Proof.
  intros Hi Hlen. unfold peers_from, registry, client_at.
  rewrite skipn_nth_cons.
  - rewrite nth_firstn.
    destruct (Nat.ltb_spec (Z.to_nat i) (Z.to_nat (clientlist_use w)));
      [| lia].
    replace (Z.to_nat (i + 1)) with (S (Z.to_nat i)) by lia. reflexivity.
  - rewrite length_firstn. lia.
Qed.

Lemma peers_from_end w i :
  clientlist_use w <= i -> peers_from w i = [].
Proof.
  intros H. unfold peers_from, registry. apply skipn_all2.
  rewrite length_firstn. lia.
Qed.

(** Where the registry keeps its order: removing the LAST registered peer
    (nothing is above it, so [memmove] is asked to move 0 bytes) closes its
    handle and leaves exactly the spec's [removeAt]: the other peers, in
    order. *)
Theorem close_last_client_is_remove_at :
  forall bo w,
    Forall int_range (clientlist w) ->
    1 <= clientlist_use w <= Z.of_nat (length (clientlist w)) ->
    clientlist_use w < 2 ^ 32 ->
    let i := clientlist_use w - 1 in
    registry (close_client bo i w) = remove_at (Z.to_nat i) (registry w)
    /\ clientlist_use (close_client bo i w) = clientlist_use w - 1
    /\ trace (close_client bo i w) = trace w ++ [Close (client_at w i)].
Proof.
  intros bo w Hints Huse Hmax i. subst i.
  unfold close_client, registry.
  cbn [clientlist clientlist_use trace log].
  rewrite (wrap32_small (clientlist_use w - 1)) by lia.
  rewrite Z.sub_diag. change (wrap32 0) with 0. change (Z.to_nat 0) with 0%nat.
  conjuncts; try reflexivity.
  unfold memmove. cbn [firstn app]. rewrite Nat.add_0_r, firstn_skipn.
  rewrite (bytes_array_array_bytes bo _ Hints).
  unfold remove_at. rewrite firstn_firstn.
  rewrite skipn_all2 by (rewrite length_firstn; lia).
  rewrite app_nil_r. f_equal. lia.
Qed.

Lemma close_last_client_is_remove_at_witness :
  registry (close_client LittleEndian 2 small_registry)
  = remove_at 2 (registry small_registry).
Proof.
  apply (close_last_client_is_remove_at LittleEndian small_registry).
  - change (clientlist small_registry) with [3; 4; 5; 0].
    repeat (apply Forall_cons; [unfold int_range; simpl; lia |]).
    apply Forall_nil.
  - simpl. lia.
  - reflexivity.
Defined.

(** C1 fails on the code, by the slip in [close_client]: [memmove] is given
    the number of entries above [i] where it wants their size in bytes, so
    with the peers 3, 4, 5 registered the removal of index 0 moves two
    bytes instead of two entries.  The spec's [removeAt] leaves [4; 5]; on
    a little-endian machine the code leaves [4; 4] (handle 5 is gone and 4
    is there twice), on a big-endian one [3; 4] (the closed handle stays).
    The count alone is right. *)
Theorem C1_close_client_moves_bytes_not_entries :
  observe three_peers = ([3; 4; 5], three_accepts)
  /\ remove_at 0 [3; 4; 5] = [4; 5]
  /\ observe (close_client LittleEndian 0 three_peers)
     = ([4; 4], three_accepts ++ [Close 3])
  /\ observe (close_client BigEndian 0 three_peers)
     = ([3; 4], three_accepts ++ [Close 3])
  /\ clientlist_use (close_client LittleEndian 0 three_peers) = 2.
Proof. cbv zeta; conjuncts; vm_compute; reflexivity. Qed.

(** C3 fails on the code: when [fcntl(O_NONBLOCK)] fails on a freshly
    accepted descriptor, [accept_any_connection] closes it and, for want of
    a [return], registers it all the same (the "too many clients" branch
    just above does return).  The next drain reads the dead descriptor,
    gets EBADF and closes it a second time. *)
Theorem C3_closed_then_registered_then_closed_again :
  let w := accept_any_connection (accepted_fcntl_failed 7) initial_world in
  let tr := [Accept 7; Printf MsgNonblockFailed; Close 7; Printf (MsgClient 0)] in
  observe w = ([7], tr)
  /\ (forall bo,
        observe_run (recv_and_discard bo [mkIo (-1) EBADF] w)
        = Some ([], tr ++ [Read 7 (-1); Close 7]))
  /\ closes 7 (tr ++ [Read 7 (-1); Close 7]) = 2%nat.
Proof.
  cbv zeta; conjuncts; try (intros bo; destruct bo); vm_compute; reflexivity.
Qed.

(** ** Draining the peers *)

Lemma recv_loop_quiet bo reads : forall i w,
  0 <= i ->
  clientlist_use w <= Z.of_nat (length (clientlist w)) ->
  clientlist_use w < 2 ^ 32 ->
  (length (peers_from w i) <= length reads)%nat ->
  Forall quiet reads ->
  recv_loop bo reads i w
  = Some (mkWorld (clientlist w) (clientlist_use w)
                  (trace w ++ reads_in_order w i reads)).
Proof.
  induction reads as [| rd reads IH]; intros i w Hi Hlen Huse Hn Hq;
    cbn [recv_loop];
    destruct (Z.ltb_spec i (clientlist_use w)) as [Hlt | Hge].
  - rewrite (peers_from_cons w i (conj Hi Hlt) Hlen) in Hn. simpl in Hn. lia.
  - unfold reads_in_order. rewrite (peers_from_end w i Hge). simpl.
    rewrite app_nil_r. destruct w; reflexivity.
  - inversion Hq as [| ? ? [Hneg Hwb] Hrest]; subst.
    destruct (Z.ltb_spec (io_n rd) 0); [| lia]. rewrite Hwb.
    rewrite wrap32_small by lia.
    pose proof (peers_from_cons w i (conj Hi Hlt) Hlen) as Hpeers.
    rewrite IH; try assumption; try lia.
    + unfold reads_in_order.
      change (peers_from (log (Read (client_at w i) (io_n rd)) w) (i + 1))
        with (peers_from w (i + 1)).
      rewrite Hpeers. simpl. rewrite <- app_assoc. reflexivity.
    + change (peers_from (log (Read (client_at w i) (io_n rd)) w) (i + 1))
        with (peers_from w (i + 1)).
      rewrite Hpeers in Hn. simpl in Hn. lia.
  - unfold reads_in_order. rewrite (peers_from_end w i Hge). simpl.
    rewrite app_nil_r. destruct w; reflexivity.
Qed.

(** Where the drain is right: when every peer is silent, the drain reads
    each registered peer exactly once, in registry order, makes no other
    call and leaves the registry as it was. *)
Theorem quiet_drain_reads_each_peer_once :
  forall bo reads w,
    0 <= clientlist_use w <= Z.of_nat (length (clientlist w)) ->
    clientlist_use w < 2 ^ 32 ->
    (length (registry w) <= length reads)%nat ->
    Forall quiet reads ->
    exists w',
      recv_and_discard bo reads w = Some w'
      /\ registry w' = registry w
      /\ trace w'
         = trace w
           ++ map (fun p => Read (fst p) (io_n (snd p)))
                  (combine (registry w) reads).
Proof.
  intros bo reads w Huse Hmax Hn Hq.
  eexists. split; [| split].
  - unfold recv_and_discard. apply recv_loop_quiet; try assumption; try lia.
  - reflexivity.
  - reflexivity.
Qed.

Lemma quiet_drain_reads_each_peer_once_witness :
  exists w',
    recv_and_discard LittleEndian
      [mkIo (-1) EAGAIN; mkIo (-1) EAGAIN; mkIo (-1) EAGAIN] three_peers
    = Some w'
    /\ registry w' = registry three_peers
    /\ trace w'
       = trace three_peers
         ++ map (fun p => Read (fst p) (io_n (snd p)))
                (combine (registry three_peers)
                   [mkIo (-1) EAGAIN; mkIo (-1) EAGAIN; mkIo (-1) EAGAIN]).
Proof.
  apply (quiet_drain_reads_each_peer_once LittleEndian
           [mkIo (-1) EAGAIN; mkIo (-1) EAGAIN; mkIo (-1) EAGAIN] three_peers).
  - vm_compute. split; discriminate.
  - reflexivity.
  - vm_compute. lia.
  - repeat constructor; simpl; lia.
Defined.

(** C6 fails on the code, by the slip in [close_client].  With
    the peers 3, 4, 5 registered, peer 3 has closed its socket and the
    other two have nothing to say.  On a little-endian machine the drain
    closes 3, then reads 4 twice and never reads 5; on a big-endian one it
    reads only the dead handle 3, three times, and empties the registry. *)
Theorem C6_drain_skips_and_revisits :
  let quiet := mkIo (-1) EAGAIN in
  let dead := mkIo (-1) EBADF in
  let tr_le := [Read 3 0; Close 3; Read 4 (-1); Read 4 (-1)] in
  let tr_be := [Read 3 0; Close 3; Read 3 (-1); Close 3; Read 3 (-1); Close 3] in
  observe_run (recv_and_discard LittleEndian [mkIo 0 0; quiet; quiet] three_peers)
  = Some ([4; 4], three_accepts ++ tr_le)
  /\ (reads_of 4 tr_le = 2%nat /\ reads_of 5 tr_le = 0%nat)
  /\ observe_run (recv_and_discard BigEndian [mkIo 0 0; dead; dead] three_peers)
     = Some ([], three_accepts ++ tr_be)
  /\ (reads_of 4 tr_be = 0%nat /\ reads_of 5 tr_be = 0%nat).
Proof.
  cbv zeta; conjuncts; vm_compute; reflexivity.
Qed.

(** ** Broadcasting a frame *)

Lemma start_ofs_zero w i fd : start_ofs w i 0 fd = 0.
Proof. unfold start_ofs. destruct (_ && _); reflexivity. Qed.

Lemma send_loop_soft bo writes : forall buflen ofs i w w',
  0 <= ofs <= buflen ->
  0 <= i ->
  clientlist_use w <= Z.of_nat (length (clientlist w)) ->
  clientlist_use w < 2 ^ 32 ->
  Forall soft writes ->
  send_loop bo writes buflen ofs i w = Some w' ->
  exists evs,
    trace w' = trace w ++ evs
    /\ clientlist w' = clientlist w
    /\ clientlist_use w' = clientlist_use w
    /\ forallb is_write evs = true
    /\ (forall fd, ~ In fd (peers_from w i) -> delivered fd evs = [])
    /\ (Forall posix_write evs -> NoDup (peers_from w i) ->
        forall fd, chained (start_ofs w i ofs fd) buflen (delivered fd evs)
                   = true).
Proof.
  induction writes as [| wr writes IH];
    intros buflen ofs i w w' Hofs Hi Hlen Huse Hsoft Hrun;
    cbn [send_loop] in Hrun;
    destruct (Z.ltb_spec i (clientlist_use w)) as [Hlt | Hge].
  - discriminate.
  - injection Hrun as <-. exists []. conjuncts; try reflexivity.
    + symmetry. apply app_nil_r.
    + intros _ _ fd. unfold start_ofs.
      destruct (Z.ltb_spec i (clientlist_use w)); [lia |]. simpl.
      apply Z.leb_le. lia.
  - (* one more write, on the peer at index [i] *)
    inversion Hsoft as [| ? ? Hwr Hrest]; subst.
    set (e := Write (client_at w i) ofs (buflen - ofs) (io_n wr)) in *.
    assert (Hpeers := peers_from_cons w i (conj Hi Hlt) Hlen).
    assert (Hnext : wrap32 (i + 1) = i + 1) by (apply wrap32_small; lia).
    (* the three ways of moving on to the next peer share this step *)
    assert (Hmove :
      forall n_end,
        ((0 <? io_n wr) = true -> n_end = ofs + io_n wr) ->
        ((0 <? io_n wr) = false -> n_end = ofs) ->
        (posix_write e -> n_end <= buflen) ->
        send_loop bo writes buflen 0 (i + 1) (log e w) = Some w' ->
        exists evs,
          trace w' = trace w ++ evs
          /\ clientlist w' = clientlist w
          /\ clientlist_use w' = clientlist_use w
          /\ forallb is_write evs = true
          /\ (forall fd, ~ In fd (peers_from w i) -> delivered fd evs = [])
          /\ (Forall posix_write evs -> NoDup (peers_from w i) ->
              forall fd, chained (start_ofs w i ofs fd) buflen
                           (delivered fd evs) = true)).
    { intros n_end Hpos Hnon Hend Hrun'.
      destruct (IH buflen 0 (i + 1) (log e w) w') as (evs & Htr & Hcl & Hu & Hwrites & Hout & Hpre);
        try assumption; try lia.
      exists (e :: evs). conjuncts.
      - rewrite Htr. simpl. rewrite <- app_assoc. reflexivity.
      - exact Hcl.
      - exact Hu.
      - exact Hwrites.
      - intros fd Hnot. rewrite Hpeers in Hnot.
        cbn [delivered e].
        destruct (Z.eqb_spec (client_at w i) fd) as [Efd | Efd].
        + exfalso. apply Hnot. left. exact Efd.
        + simpl. apply Hout. intros Hin. apply Hnot. right. exact Hin.
      - intros Hposix Hnd fd. rewrite Hpeers in Hnd.
        inversion Hnd as [| ? ? Hfresh Hnd']; subst.
        inversion Hposix as [| ? ? He Hposix']; subst.
        specialize (Hpre Hposix' Hnd' fd). rewrite start_ofs_zero in Hpre.
        unfold start_ofs.
        destruct (Z.ltb_spec i (clientlist_use w)); [| lia]. cbn [andb].
        cbn [delivered e].
        destruct (Z.eqb_spec (client_at w i) fd) as [Efd | Efd].
        + (* the peer just left: nothing more is written to it *)
          rewrite <- Efd in *. rewrite Z.eqb_refl.
          rewrite (Hout (client_at w i) Hfresh) in *.
          cbn [andb]. destruct (0 <? io_n wr) eqn:En.
          * cbn [chained]. rewrite Z.eqb_refl. cbn [andb].
            apply Z.leb_le. rewrite <- (Hpos eq_refl). apply Hend, He.
          * cbn [chained]. apply Z.leb_le. rewrite <- (Hnon eq_refl).
            apply Hend, He.
        + destruct (Z.eqb_spec fd (client_at w i)); [congruence |].
          cbn [andb]. exact Hpre. }
    destruct (Z.ltb_spec (io_n wr) 0) as [Hneg | Hnn].
    + (* would block *)
      rewrite (Hwr Hneg) in Hrun. cbn [negb] in Hrun. rewrite Hnext in Hrun.
      apply (Hmove ofs); try assumption.
      * intros Hp. by_test Hp.
      * reflexivity.
      * intros _. lia.
    + destruct (Z.ltb_spec 0 (io_n wr)) as [Hpos | Hzero].
      * destruct (Z.ltb_spec (ofs + io_n wr) buflen) as [Hmore | Hdone].
        -- (* partial write: same peer, advanced offset *)
           destruct (IH buflen (ofs + io_n wr) i (log e w) w')
             as (evs & Htr & Hcl & Hu & Hwrites & Hout & Hpre);
             try assumption; try lia.
           exists (e :: evs). conjuncts.
           ++ rewrite Htr. simpl. rewrite <- app_assoc. reflexivity.
           ++ exact Hcl.
           ++ exact Hu.
           ++ exact Hwrites.
           ++ intros fd Hnot. cbn [delivered e].
              destruct (Z.eqb_spec (client_at w i) fd) as [Efd | Efd].
              ** exfalso. apply Hnot. rewrite Hpeers. left. exact Efd.
              ** simpl. apply Hout. exact Hnot.
           ++ intros Hposix Hnd fd.
              inversion Hposix as [| ? ? He Hposix']; subst.
              specialize (Hpre Hposix' Hnd fd).
              change (start_ofs (log e w) i (ofs + io_n wr) fd)
                with (start_ofs w i (ofs + io_n wr) fd) in Hpre.
              unfold start_ofs in *.
              destruct (Z.ltb_spec i (clientlist_use w)); [| lia].
              cbn [andb] in *. cbn [delivered e].
              destruct (Z.eqb_spec (client_at w i) fd) as [Efd | Efd].
              ** rewrite <- Efd in *. rewrite Z.eqb_refl in *.
                 cbn [andb]. destruct (Z.ltb_spec 0 (io_n wr)); [| lia].
                 cbn [chained]. rewrite Z.eqb_refl. exact Hpre.
              ** destruct (Z.eqb_spec fd (client_at w i)); [congruence |].
                 exact Hpre.
        -- (* the frame is out: next peer *)
           rewrite Hnext in Hrun.
           apply (Hmove (ofs + io_n wr)); try assumption.
           ++ reflexivity.
           ++ intros Hp. by_test Hp.
           ++ unfold posix_write, e. lia.
      * (* write returned 0: next peer *)
        rewrite Hnext in Hrun.
        apply (Hmove ofs); try assumption.
        -- intros Hp. by_test Hp.
        -- reflexivity.
        -- intros _. lia.
  - injection Hrun as <-. exists []. conjuncts; try reflexivity.
    + symmetry. apply app_nil_r.
    + intros _ _ fd. unfold start_ofs.
      destruct (Z.ltb_spec i (clientlist_use w)); [lia |]. simpl.
      apply Z.leb_le. lia.
Qed.

(** Where the broadcast is right: in a broadcast during which no write reports
    a hard error, nobody is removed, the only calls made are writes, and
    every peer is handed a prefix of the frame: its writes start at offset
    0, each continues where the one before ended, and none follows a
    would-block.  (The registered descriptors are distinct, and [write]
    keeps its contract.) *)
Theorem broadcast_without_removal :
  forall bo writes buflen w w',
    0 <= buflen ->
    0 <= clientlist_use w <= Z.of_nat (length (clientlist w)) ->
    clientlist_use w < 2 ^ 32 ->
    NoDup (registry w) ->
    Forall soft writes ->
    send_to_socket bo writes buflen w = Some w' ->
    exists evs,
      trace w' = trace w ++ evs
      /\ registry w' = registry w
      /\ forallb is_write evs = true
      /\ (Forall posix_write evs ->
          forall fd, is_prefix_delivery buflen (delivered fd evs) = true).
Proof.
  intros bo writes buflen w w' Hlen Huse Hmax Hnd Hsoft Hrun.
  destruct (send_loop_soft bo writes buflen 0 0 w w')
    as (evs & Htr & Hcl & Hu & Hwrites & _ & Hpre);
    try assumption; try lia.
  exists evs. conjuncts; try assumption.
  - unfold registry. rewrite Hcl, Hu. reflexivity.
  - intros Hposix fd. specialize (Hpre Hposix Hnd fd).
    rewrite start_ofs_zero in Hpre. exact Hpre.
Qed.

Lemma broadcast_without_removal_witness :
  exists evs,
    trace three_peers_after_frame = trace three_peers ++ evs
    /\ registry three_peers_after_frame = registry three_peers
    /\ forallb is_write evs = true
    /\ (Forall posix_write evs ->
        forall fd, is_prefix_delivery 100 (delivered fd evs) = true).
Proof.
  apply (broadcast_without_removal LittleEndian
           [mkIo 40 0; mkIo 60 0; mkIo 30 0; mkIo (-1) EAGAIN; mkIo 100 0]
           100 three_peers three_peers_after_frame).
  - lia.
  - vm_compute. split; discriminate.
  - reflexivity.
  - change (registry three_peers) with [3; 4; 5].
    repeat constructor; simpl; lia.
  - repeat constructor; unfold soft; simpl; intros; first [lia | reflexivity].
  - vm_compute. reflexivity.
Defined.

(** C5 fails on the code, by the slip in [close_client].  A
    frame of 100 bytes goes to the peers 3, 4, 5; the write to 3 fails with
    EPIPE, so 3 is removed.  On a little-endian machine the registry is
    then [4; 4]: peer 4 is handed the whole frame twice, which is no prefix
    of the frame, and peer 5 is handed nothing.  On a big-endian machine
    the dead handle 3 stays at index 0 until the registry is empty, and
    neither 4 nor 5 is written to. *)
Theorem C5_broadcast_after_removal_repeats_frame :
  let tr_le := [Write 3 0 100 (-1); Close 3; Write 4 0 100 100; Write 4 0 100 100] in
  let tr_be := [Write 3 0 100 (-1); Close 3; Write 3 0 100 (-1); Close 3;
                Write 3 0 100 (-1); Close 3] in
  observe_run (send_to_socket LittleEndian
                 [mkIo (-1) EPIPE; mkIo 100 0; mkIo 100 0] 100 three_peers)
  = Some ([4; 4], three_accepts ++ tr_le)
  /\ delivered 4 tr_le = [(0, 100); (0, 100)]
  /\ is_prefix_delivery 100 (delivered 4 tr_le) = false
  /\ delivered 5 tr_le = []
  /\ observe_run (send_to_socket BigEndian
                    [mkIo (-1) EPIPE; mkIo (-1) EBADF; mkIo (-1) EBADF] 100
                    three_peers)
     = Some ([], three_accepts ++ tr_be)
  /\ delivered 4 tr_be = []
  /\ delivered 5 tr_be = [].
Proof.
  cbv zeta; conjuncts; vm_compute; reflexivity.
Qed.

(** ** The streaming loop: handshake and bulk reads *)

Lemma supervise_wait : supervise WAIT_FOR_HOTPLUG = WaitAndRetry.
Proof. reflexivity. Qed.

Lemma supervise_wrong_device : supervise VENDOR_ID_DJI = WaitAndRetry.
Proof. reflexivity. Qed.

(** libusb's error codes are negative: the supervisor takes each of them
    for a failure. *)
Lemma supervise_negative (r : Z) : r < 0 -> supervise r = ExitFailed.
Proof.
  intros Hr. unfold supervise, WAIT_FOR_HOTPLUG, VENDOR_ID_DJI. ztests.
  reflexivity.
Qed.

(** An iteration whose bulk read was classified [Next] is followed by the
    next iteration, with the counter incremented. *)
Lemma stream_loop_next bo t ticks count count' w w' :
  stream_iteration bo t count w = Some (Next count', w') ->
  stream_loop bo (t :: ticks) count w
  = stream_loop bo ticks (wrap32 (count' + 1)) w'.
Proof. intros H. simpl. rewrite H. reflexivity. Qed.

Lemma stream_loop_return bo t ticks count r w w' :
  stream_iteration bo t count w = Some (Return_ r, w') ->
  stream_loop bo (t :: ticks) count w = Some (r, w').
Proof. intros H. simpl. rewrite H. reflexivity. Qed.

(** C7 fails on the code in its success class, by the slip in
    [close_client].  Three peers 3, 4, 5 are connected and silent, the
    handshake went through, the bulk read succeeds with a frame of 100
    bytes, and the write to 3 fails with EPIPE.  The status line is printed
    and [send_to_socket] runs, but on a little-endian machine the registry
    is [4; 4] once 3 is removed: peer 4 is written the frame twice and peer
    5 not at all.  On a big-endian machine the dead handle 3 stays in front
    until the registry is empty, and neither 4 nor 5 is written to.  The
    loop does go on: its next iteration drains the registry it was left
    with, and ends on the device being gone. *)
Theorem C7_frame_after_removal_misses_a_peer :
  let next_reads := [Read 4 (-1); Read 4 (-1)] in
  let tr_le :=
    [UsbBulkOut 4; Read 3 (-1); Read 4 (-1); Read 5 (-1);
     UsbBulkIn 0 100; Printf (MsgVideo 3 0 0); Write 3 0 100 (-1);
     Close 3; Write 4 0 100 100; Write 4 0 100 100] in
  let tr_be :=
    [UsbBulkOut 4; Read 3 (-1); Read 4 (-1); Read 5 (-1);
     UsbBulkIn 0 100; Printf (MsgVideo 3 0 0); Write 3 0 100 (-1);
     Close 3; Write 3 0 100 (-1); Close 3; Write 3 0 100 (-1);
     Close 3] in
  let last := [UsbBulkIn LIBUSB_ERROR_NO_DEVICE 0; Printf MsgWaitNoDev] in
  observe_return
    (start_stream LittleEndian (0, MAGIC_PACKET_LEN)
       [frame_tick [mkIo (-1) EPIPE; mkIo 100 0; mkIo 100 0];
        device_gone_tick] three_peers)
  = Some (WAIT_FOR_HOTPLUG, three_accepts ++ tr_le ++ next_reads ++ last)
  /\ delivered 4 tr_le = [(0, 100); (0, 100)]
  /\ is_prefix_delivery 100 (delivered 4 tr_le) = false
  /\ delivered 5 tr_le = []
  /\ observe_return
       (start_stream BigEndian (0, MAGIC_PACKET_LEN)
          [frame_tick [mkIo (-1) EPIPE; mkIo (-1) EBADF; mkIo (-1) EBADF];
           device_gone_tick] three_peers)
     = Some (WAIT_FOR_HOTPLUG, three_accepts ++ tr_be ++ last)
  /\ delivered 4 tr_be = []
  /\ delivered 5 tr_be = [].
Proof.
  cbv zeta; conjuncts; vm_compute; reflexivity.
Qed.

(** C8: the handshake.  (1) Timeout with nothing sent: no message, the
    receive loop starts at once.  (2) I/O error: WAIT_FOR_HOTPLUG, which
    the supervisor answers by waiting and retrying.  (3) Any other
    non-zero result is returned as it is, and a send that succeeded with a
    count other than 4 returns LIBUSB_ERROR_TIMEOUT; the supervisor takes
    both for a failure.  A full send of 4 bytes starts the receive loop. *)
Theorem C8_handshake_classification :
  forall bo r success ticks w,
    let w0 := log (UsbBulkOut MAGIC_PACKET_LEN) w in
    (r = LIBUSB_ERROR_TIMEOUT -> success = 0 ->
     start_stream bo (r, success) ticks w = stream_loop bo ticks 0 w0)
    /\ (r = LIBUSB_ERROR_IO ->
        start_stream bo (r, success) ticks w
        = Some (WAIT_FOR_HOTPLUG, log (Printf MsgSendIo) w0)
        /\ supervise WAIT_FOR_HOTPLUG = WaitAndRetry)
    /\ (r <> 0 -> r <> LIBUSB_ERROR_IO ->
        (r = LIBUSB_ERROR_TIMEOUT -> success <> 0) ->
        start_stream bo (r, success) ticks w
        = Some (r, log (Printf (MsgSendMagic success r)) w0)
        /\ (r < 0 -> supervise r = ExitFailed))
    /\ (r = 0 -> success <> MAGIC_PACKET_LEN ->
        start_stream bo (r, success) ticks w
        = Some (LIBUSB_ERROR_TIMEOUT, log (Printf (MsgSendShort success)) w0)
        /\ supervise LIBUSB_ERROR_TIMEOUT = ExitFailed)
    /\ (r = 0 -> success = MAGIC_PACKET_LEN ->
        start_stream bo (r, success) ticks w = stream_loop bo ticks 0 w0).
Proof.
  intros bo r success ticks w w0. subst w0. conjuncts.
  - intros -> ->. reflexivity.
  - intros ->. split; reflexivity.
  - intros H0 Hio Hto. split; [| apply supervise_negative].
    unfold start_stream.
    destruct (Z.eqb_spec r LIBUSB_ERROR_TIMEOUT) as [Er | Er]; simpl.
    + specialize (Hto Er).
      destruct (Z.eqb_spec success 0); [contradiction |].
      ztests. reflexivity.
    + ztests. reflexivity.
  - intros -> Hs. split; [| reflexivity].
    unfold start_stream. simpl. ztests. reflexivity.
  - intros -> ->. reflexivity.
Qed.

(** C9: a bulk read that reports a timeout after transferring some bytes
    is not the no-signal case: LIBUSB_ERROR_TIMEOUT is returned, no [write]
    is made, and the supervisor takes the code for a failure, not for the
    wait-for-hotplug signal. *)
Theorem C9_timeout_with_bytes_is_fatal :
  forall bo success writes count w,
    success <> 0 ->
    classify_bulk_in bo LIBUSB_ERROR_TIMEOUT success writes count w
    = Some (Return_ LIBUSB_ERROR_TIMEOUT,
            log (Printf (MsgRx success LIBUSB_ERROR_TIMEOUT)) w)
    /\ filter is_write
         (trace (log (Printf (MsgRx success LIBUSB_ERROR_TIMEOUT)) w))
       = filter is_write (trace w)
    /\ LIBUSB_ERROR_TIMEOUT <> WAIT_FOR_HOTPLUG
    /\ supervise LIBUSB_ERROR_TIMEOUT = ExitFailed
    /\ forall t ticks w1,
         tk_bulk t = (LIBUSB_ERROR_TIMEOUT, success) ->
         recv_and_discard bo (tk_reads t)
           (accept_any_connection (tk_accept t) w) = Some w1 ->
         stream_loop bo (t :: ticks) count w
         = Some (LIBUSB_ERROR_TIMEOUT,
                 log (Printf (MsgRx success LIBUSB_ERROR_TIMEOUT))
                   (log (UsbBulkIn LIBUSB_ERROR_TIMEOUT success) w1)).
Proof.
  intros bo success writes count w Hs.
  assert (E : forall ws c v,
             classify_bulk_in bo LIBUSB_ERROR_TIMEOUT success ws c v
             = Some (Return_ LIBUSB_ERROR_TIMEOUT,
                     log (Printf (MsgRx success LIBUSB_ERROR_TIMEOUT)) v)).
  { intros ws c v. unfold classify_bulk_in. simpl.
    destruct (Z.eqb_spec success 0); [contradiction | reflexivity]. }
  conjuncts.
  - apply E.
  - simpl. rewrite filter_app. simpl. apply app_nil_r.
  - discriminate.
  - reflexivity.
  - intros t ticks w1 Hbulk Hdrain.
    apply stream_loop_return.
    unfold stream_iteration. rewrite Hdrain, Hbulk. apply E.
Qed.

Lemma C9_timeout_with_bytes_witness :
  classify_bulk_in LittleEndian LIBUSB_ERROR_TIMEOUT 512 [] 7 three_peers
  = Some (Return_ LIBUSB_ERROR_TIMEOUT,
          log (Printf (MsgRx 512 LIBUSB_ERROR_TIMEOUT)) three_peers).
Proof.
  apply (C9_timeout_with_bytes_is_fatal LittleEndian 512 [] 7 three_peers).
  lia.
Defined.

(** ** Device discovery *)

(** [firstIn] and [firstOut] are only ever set from an endpoint of the
    matching direction. *)
Lemma scan_endpoints_first_in eps : forall fi fo,
  existsb is_in_endpoint eps = false ->
  fst (scan_endpoints eps fi fo) = fi.
Proof.
  induction eps as [| dep eps IH]; intros fi fo H; simpl in *.
  - reflexivity.
  - apply orb_false_iff in H as [Hd He]. unfold is_in_endpoint in Hd.
    rewrite Hd. simpl. apply IH, He.
Qed.

Lemma scan_endpoints_first_out eps : forall fi fo,
  existsb is_out_endpoint eps = false ->
  snd (scan_endpoints eps fi fo) = fo.
Proof.
  induction eps as [| dep eps IH]; intros fi fo H; simpl in *.
  - reflexivity.
  - apply orb_false_iff in H as [Hd He]. unfold is_out_endpoint in Hd.
    rewrite Hd. simpl. apply IH, He.
Qed.

(** Alternate settings past the first never change what was resolved. *)
Lemma scan_altsettings_later alts : forall i nalt j s w,
  1 <= j -> fst (scan_altsettings alts i nalt j s w) = s.
Proof.
  induction alts as [| alt alts IH]; intros i nalt j s w Hj; simpl.
  - reflexivity.
  - destruct (scan_endpoints (endpoint alt) (-1) (-1)) as [fi fo].
    destruct (Z.eqb_spec j 0); [lia |]. simpl.
    destruct ((bInterfaceClass alt =? 255) && (bInterfaceSubClass alt =? 67));
      apply IH; lia.
Qed.

(** Nor does the first one, unless it is a usable 0xFF/0x43 setting. *)
Lemma scan_altsettings_unusable alts i s w :
  match alts with alt :: _ => usable_ff43 alt | [] => false end = false ->
  fst (scan_altsettings alts i (Z.of_nat (length alts)) 0 s w) = s.
Proof.
  destruct alts as [| alt alts]; intros H; [reflexivity |].
  cbn [scan_altsettings].
  pose proof (scan_endpoints_first_in (endpoint alt) (-1) (-1)) as Hin.
  pose proof (scan_endpoints_first_out (endpoint alt) (-1) (-1)) as Hout.
  destruct (scan_endpoints (endpoint alt) (-1) (-1)) as [fi fo].
  cbn [fst snd] in Hin, Hout.
  unfold usable_ff43 in H. change (0 =? 0) with true. cbn [andb].
  destruct ((bInterfaceClass alt =? 255) && (bInterfaceSubClass alt =? 67))
    eqn:Hcls; cbn [andb] in H.
  - destruct (existsb is_in_endpoint (endpoint alt)) eqn:Ein; cbn [andb] in H.
    + rewrite (Hout H). simpl. rewrite andb_false_r.
      apply scan_altsettings_later. lia.
    + rewrite (Hin eq_refl). simpl. apply scan_altsettings_later. lia.
  - apply scan_altsettings_later. lia.
Qed.

Lemma scan_interfaces_unusable ifaces : forall i s w,
  existsb (fun iface =>
             match altsetting iface with
             | alt :: _ => usable_ff43 alt
             | [] => false
             end) ifaces = false ->
  fst (scan_interfaces ifaces i s w) = s.
Proof.
  induction ifaces as [| iface ifaces IH]; intros i s w H; simpl in *.
  - reflexivity.
  - apply orb_false_iff in H as [Hhd Htl].
    match goal with
    | |- context [scan_altsettings ?a ?i ?n 0 ?s ?v] =>
        pose proof (scan_altsettings_unusable a i s v Hhd) as Hs;
        destruct (scan_altsettings a i n 0 s v) as [s' w']
    end.
    simpl in Hs. subst s'. apply IH, Htl.
Qed.

(** C10: the device has the goggles' identity, opens, and gets as far as
    the scan of its configuration descriptor, but no interface has a usable
    0xFF/0x43 alternate setting 0.  Then [find_FF_43] is still -1 when the
    interface is claimed, and if that claim fails with [rc] the handle is
    closed and [rc] is returned: not the wrong-device code that keeps the
    scan going, but (libusb's errors being negative) a failure that ends
    the supervisor's loop. *)
Theorem C10_claims_interface_minus_one :
  forall bo d w rc,
    dev_get_device_descriptor d = 0 ->
    idVendor d = VENDOR_ID_DJI ->
    idProduct d = DEVICE_ID_GOGGLES ->
    dev_open d = 0 ->
    fst (configure d (log UsbOpen w)) = None ->
    dev_get_config_descriptor d = 0 ->
    exposes_ff43 (dev_cdesc d) = false ->
    dev_claim_interface d (-1) = rc ->
    rc <> 0 ->
    let w1 := snd (configure d (log UsbOpen w)) in
    let w2 := snd (scan_interfaces (interfaces (dev_cdesc d)) 0
                                   (mkResolved (-1) (-1) (-1)) w1) in
    start_with_a_device bo d w
    = Some (rc, log UsbClose
                  (log (Printf (MsgClaimFailed rc))
                     (log (UsbClaimInterface (-1)) w2)))
    /\ (rc < 0 -> rc <> VENDOR_ID_DJI /\ supervise rc = ExitFailed).
Proof.
  intros bo d w rc Hdesc Hv Hp Hopen Hcfg Hcd Hno Hclaim Hrc w1 w2.
  split.
  - unfold start_with_a_device.
    rewrite Hdesc, Hv, Hp, Hopen, Hcd. simpl.
    subst w2 w1.
    destruct (configure d (log UsbOpen w)) as [o v]. simpl in Hcfg. subst o.
    cbn [snd].
    pose proof (scan_interfaces_unusable (interfaces (dev_cdesc d)) 0
                  (mkResolved (-1) (-1) (-1)) v Hno) as Hs.
    destruct (scan_interfaces (interfaces (dev_cdesc d)) 0
                (mkResolved (-1) (-1) (-1)) v) as [s v'].
    cbn [fst snd] in *. subst s.
    unfold claim_and_stream. cbn [find_FF_43]. rewrite Hclaim.
    destruct (Z.eqb_spec rc 0); [contradiction | reflexivity].
  - intros Hneg. split.
    + unfold VENDOR_ID_DJI. lia.
    + apply supervise_negative, Hneg.
Qed.

Lemma C10_claims_interface_minus_one_witness :
  start_with_a_device LittleEndian goggles_without_ff43 initial_world
  = Some (LIBUSB_ERROR_INVALID_PARAM,
          log UsbClose
            (log (Printf (MsgClaimFailed LIBUSB_ERROR_INVALID_PARAM))
               (log (UsbClaimInterface (-1)) (log UsbOpen initial_world)))).
Proof.
  apply (C10_claims_interface_minus_one LittleEndian goggles_without_ff43
           initial_world LIBUSB_ERROR_INVALID_PARAM);
    first [reflexivity | discriminate].
Defined.

(** ** Release of the device handle *)

Lemma claim_and_stream_closes bo d s w r w' :
  claim_and_stream bo d s w = Some (r, w') ->
  exists v, w' = log UsbClose v.
Proof.
  unfold claim_and_stream.
  destruct (negb (dev_claim_interface d (find_FF_43 s) =? 0)).
  - intros [= _ <-]. eexists; reflexivity.
  - destruct (dev_get_configuration_again d) as [r2 cfg].
    destruct (negb (r2 =? 0)).
    + intros [= _ <-]. eexists; reflexivity.
    + destruct (start_stream bo (dev_magic d) (dev_stream d) _)
        as [[r3 v] |]; [| discriminate].
      intros [= _ <-]. eexists; reflexivity.
Qed.

(** Where the handle is released: once the configuration descriptor has been
    read, whatever [start_with_a_device] returns (a failed claim, a failed
    second get_configuration, or the result of the streaming loop), the
    last call it made is [libusb_close]. *)
Theorem handle_closed_after_config_descriptor :
  forall bo d w r w',
    dev_get_device_descriptor d = 0 ->
    idVendor d = VENDOR_ID_DJI ->
    idProduct d = DEVICE_ID_GOGGLES ->
    dev_open d = 0 ->
    fst (configure d (log UsbOpen w)) = None ->
    dev_get_config_descriptor d = 0 ->
    start_with_a_device bo d w = Some (r, w') ->
    exists v, w' = log UsbClose v.
Proof.
  intros bo d w r w' Hdesc Hv Hp Hopen Hcfg Hcd.
  unfold start_with_a_device.
  rewrite Hdesc, Hv, Hp, Hopen, Hcd. simpl.
  destruct (configure d (log UsbOpen w)) as [o v]. simpl in Hcfg. subst o.
  destruct (scan_interfaces (interfaces (dev_cdesc d)) 0
              (mkResolved (-1) (-1) (-1)) v) as [s v2].
  apply claim_and_stream_closes.
Qed.

Lemma handle_closed_after_config_descriptor_witness :
  exists v,
    log UsbClose
      (log (Printf MsgWaitNoDev)
         (log (UsbBulkIn LIBUSB_ERROR_NO_DEVICE 0)
            (log (Usleep 500000)
               (log (Printf MsgVideoOff)
                  (log (UsbBulkIn LIBUSB_ERROR_TIMEOUT 0)
                     (log (UsbBulkOut 4)
                        (log (UsbClaimInterface 0)
                           (log UsbOpen initial_world))))))))
    = log UsbClose v.
Proof.
  apply (handle_closed_after_config_descriptor LittleEndian goggles_unplugged
           initial_world WAIT_FOR_HOTPLUG);
    reflexivity.
Defined.

(** C4 fails on the code: after [libusb_open] succeeded, the [return r] of
    line 302 (set_configuration failed) and of line 312
    (get_config_descriptor failed) leave [start_with_a_device] without
    [libusb_close], which the two later failure paths (lines 356 and 367)
    and the return after streaming do call. *)
Theorem C4_handle_left_open_on_early_failures :
  forall bo,
    observe_return
      (start_with_a_device bo goggles_set_configuration_fails initial_world)
    = Some (LIBUSB_ERROR_BUSY,
            [UsbOpen; Printf (MsgNeedSetCfg 0); UsbSetConfiguration 1;
             Printf (MsgSetConfigurationFailed LIBUSB_ERROR_BUSY)])
    /\ observe_return
         (start_with_a_device bo goggles_config_descriptor_fails initial_world)
       = Some (LIBUSB_ERROR_NOT_FOUND,
               [UsbOpen;
                Printf (MsgGetConfigDescriptorFailed LIBUSB_ERROR_NOT_FOUND)])
    /\ observe_return
         (start_with_a_device bo goggles_without_ff43 initial_world)
       = Some (LIBUSB_ERROR_INVALID_PARAM,
               [UsbOpen; UsbClaimInterface (-1);
                Printf (MsgClaimFailed LIBUSB_ERROR_INVALID_PARAM); UsbClose]).
Proof.
  intros bo; conjuncts; vm_compute; reflexivity.
Qed.

(** ** The supervisor: what it can be handed, and when it waits *)

Lemma classify_bulk_in_return bo r success writes count w r' w' :
  classify_bulk_in bo r success writes count w = Some (Return_ r', w') ->
  r' <> 0.
Proof.
  unfold classify_bulk_in.
  destruct ((r =? LIBUSB_ERROR_TIMEOUT) && (success =? 0)); [discriminate |].
  destruct (r =? LIBUSB_ERROR_IO);
    [intros [= <- _]; discriminate |].
  destruct (r =? LIBUSB_ERROR_NO_DEVICE);
    [intros [= <- _]; discriminate |].
  destruct (r =? LIBUSB_ERROR_NOT_FOUND);
    [intros [= <- _]; discriminate |].
  destruct (Z.eqb_spec r 0) as [-> | Hr]; simpl.
  - destruct (send_to_socket bo writes success _); discriminate.
  - intros [= <- _]. exact Hr.
Qed.

Lemma stream_loop_nonzero bo ticks : forall count w r w',
  stream_loop bo ticks count w = Some (r, w') -> r <> 0.
Proof.
  induction ticks as [| t ticks IH]; intros count w r w' H; simpl in H.
  - discriminate.
  - unfold stream_iteration in H.
    destruct (recv_and_discard bo (tk_reads t) _) as [v |]; [| discriminate].
    destruct (tk_bulk t) as [rb sb].
    destruct (classify_bulk_in bo rb sb (tk_writes t) count _)
      as [[[c | r0] v'] |] eqn:E; [| | discriminate].
    + eapply IH, H.
    + injection H as <- _. eapply classify_bulk_in_return, E.
Qed.

(** The comment of line 262 holds: [start_stream] has no "return 0". *)
Lemma start_stream_nonzero bo magic ticks w r w' :
  start_stream bo magic ticks w = Some (r, w') -> r <> 0.
Proof.
  destruct magic as [rm sm]. unfold start_stream.
  destruct ((rm =? LIBUSB_ERROR_TIMEOUT) && (sm =? 0));
    [apply stream_loop_nonzero |].
  destruct (rm =? LIBUSB_ERROR_IO); [intros [= <- _]; discriminate |].
  destruct (Z.eqb_spec rm 0) as [-> | Hr]; simpl.
  - destruct (negb (sm =? MAGIC_PACKET_LEN));
      [intros [= <- _]; discriminate | apply stream_loop_nonzero].
  - intros [= <- _]. exact Hr.
Qed.

Lemma claim_and_stream_nonzero bo d s w r w' :
  claim_and_stream bo d s w = Some (r, w') -> r <> 0.
Proof.
  unfold claim_and_stream.
  destruct (Z.eqb_spec (dev_claim_interface d (find_FF_43 s)) 0) as [E | E];
    simpl; [| intros [= <- _]; exact E].
  destruct (dev_get_configuration_again d) as [r2 cfg].
  destruct (Z.eqb_spec r2 0) as [-> | E2]; simpl; [| intros [= <- _]; exact E2].
  destruct (start_stream bo (dev_magic d) (dev_stream d) _)
    as [[r3 v] |] eqn:Es; [| discriminate].
  intros [= <- _]. eapply start_stream_nonzero, Es.
Qed.

(** Nor has [start_with_a_device]. *)
Lemma start_with_a_device_nonzero bo d w r w' :
  start_with_a_device bo d w = Some (r, w') -> r <> 0.
Proof.
  unfold start_with_a_device.
  destruct (Z.eqb_spec (dev_get_device_descriptor d) 0) as [_ | E]; simpl;
    [| intros [= <- _]; exact E].
  destruct (negb (idVendor d =? VENDOR_ID_DJI)
            || negb (idProduct d =? DEVICE_ID_GOGGLES));
    [intros [= <- _]; discriminate |].
  destruct (negb (dev_open d =? 0)); [intros [= <- _]; discriminate |].
  unfold configure.
  destruct (dev_get_configuration d) as [r1 cfg].
  destruct (negb (r1 =? 0)).
  - destruct (Z.eqb_spec (dev_get_config_descriptor d) 0) as [_ | E]; simpl;
      [| intros [= <- _]; exact E].
    destruct (scan_interfaces _ _ _ _) as [s v].
    apply claim_and_stream_nonzero.
  - destruct (cfg =? 0).
    + destruct (Z.eqb_spec (dev_set_configuration d) 0) as [_ | E]; simpl;
        [| intros [= <- _]; exact E].
      destruct (Z.eqb_spec (dev_get_config_descriptor d) 0) as [_ | E]; simpl;
        [| intros [= <- _]; exact E].
      destruct (scan_interfaces _ _ _ _) as [s v].
      apply claim_and_stream_nonzero.
    + destruct (Z.eqb_spec (dev_get_config_descriptor d) 0) as [_ | E]; simpl;
        [| intros [= <- _]; exact E].
      destruct (scan_interfaces _ _ _ _) as [s v].
      apply claim_and_stream_nonzero.
Qed.

(** The loop over the devices ends with 0 only if it was entered with 0
    and its body never ran. *)
Lemma try_devices_zero bo devs : forall i cnt r0 w w',
  try_devices bo devs i cnt r0 w = Some (0, w') ->
  r0 = 0 /\ (devs = [] \/ cnt <= i).
Proof.
  induction devs as [| d devs IH]; intros i cnt r0 w w' H; simpl in H.
  - injection H as -> _. auto.
  - destruct (Z.ltb_spec i cnt) as [Hlt | Hge].
    + destruct (start_with_a_device bo d w) as [[r v] |] eqn:E;
        [| discriminate].
      destruct (r =? VENDOR_ID_DJI).
      * apply IH in H as [H0 _]. apply start_with_a_device_nonzero in E.
        contradiction.
      * injection H as -> _. apply start_with_a_device_nonzero in E.
        contradiction.
    + injection H as -> _. auto.
Qed.

Lemma start_with_a_wrong_device bo d w :
  wrong_device d -> start_with_a_device bo d w = Some (VENDOR_ID_DJI, w).
Proof.
  intros [Hd Hid]. unfold start_with_a_device. rewrite Hd. simpl.
  destruct Hid as [Hv | Hp].
  - destruct (Z.eqb_spec (idVendor d) VENDOR_ID_DJI); [contradiction |].
    reflexivity.
  - destruct (Z.eqb_spec (idProduct d) DEVICE_ID_GOGGLES); [contradiction |].
    rewrite orb_true_r. reflexivity.
Qed.

Lemma try_wrong_devices bo devs : forall i r0 w,
  Forall wrong_device devs ->
  try_devices bo devs i (i + Z.of_nat (length devs)) r0 w
  = Some (match devs with [] => r0 | _ :: _ => VENDOR_ID_DJI end, w).
Proof.
  induction devs as [| d devs IH]; intros i r0 w Hall.
  - reflexivity.
  - inversion Hall as [| ? ? Hd Hrest]; subst.
    cbn [try_devices length].
    destruct (Z.ltb_spec i (i + Z.of_nat (S (length devs)))); [| lia].
    rewrite (start_with_a_wrong_device bo d w Hd).
    change (VENDOR_ID_DJI =? VENDOR_ID_DJI) with true. cbv iota.
    replace (i + Z.of_nat (S (length devs)))
      with ((i + 1) + Z.of_nat (length devs)) by lia.
    rewrite (IH (i + 1) VENDOR_ID_DJI w Hrest).
    destruct devs; reflexivity.
Qed.

(** Where the supervisor waits: a pass that finds at least one device, none
    of them the goggles, prints the prompt, sleeps 0.5 s and goes on with
    the next pass, having serviced accept and drain first. *)
Theorem wrong_devices_wait_and_retry :
  forall bo p passes w w1,
    ps_devs p <> [] ->
    ps_cnt p = Z.of_nat (length (ps_devs p)) ->
    Forall wrong_device (ps_devs p) ->
    recv_and_discard bo (ps_reads p) (accept_any_connection (ps_accept p) w)
    = Some w1 ->
    supervisor_loop bo (p :: passes) w
    = supervisor_loop bo passes
        (log (Usleep 500000)
           (log (Printf (MsgPleasePlugIn (clientlist_use w1))) w1)).
Proof.
  intros bo p passes w w1 Hne Hcnt Hall Hdrain.
  cbn [supervisor_loop]. rewrite Hdrain.
  destruct (Z.leb_spec 0 (ps_cnt p)); [| lia].
  rewrite Hcnt.
  pose proof (try_wrong_devices bo (ps_devs p) 0 0 w1 Hall) as Htry.
  rewrite Z.add_0_l in Htry. rewrite Htry.
  destruct (ps_devs p); [contradiction | reflexivity].
Qed.

Lemma wrong_devices_wait_and_retry_witness :
  supervisor_loop LittleEndian [mkPass nothing_pending [] 1 [some_hub]]
    initial_world
  = supervisor_loop LittleEndian []
      (log (Usleep 500000)
         (log (Printf (MsgPleasePlugIn 0)) initial_world)).
Proof.
  apply (wrong_devices_wait_and_retry LittleEndian
           (mkPass nothing_pending [] 1 [some_hub]) [] initial_world
           initial_world).
  - discriminate.
  - reflexivity.
  - apply Forall_cons; [| apply Forall_nil].
    split; [reflexivity | left; discriminate].
  - reflexivity.
Defined.

(** The program returns 0 only for an empty device list: if every pass has a
    failed enumeration or at least one device to try, [start_usb2sock]
    never returns 0 once its set-up succeeded. *)
Theorem exit_zero_only_on_empty_list :
  forall bo passes w w',
    Forall (fun p => ps_cnt p < 0 \/ (0 < ps_cnt p /\ ps_devs p <> [])) passes ->
    supervisor_loop bo passes w <> Some (0, w').
Proof.
  intros bo passes. induction passes as [| p passes IH]; intros w w' Hall H.
  - discriminate.
  - inversion Hall as [| ? ? Hp Hrest]; subst.
    cbn [supervisor_loop] in H.
    destruct (recv_and_discard bo (ps_reads p) _) as [v |]; [| discriminate].
    destruct (Z.leb_spec 0 (ps_cnt p)) as [Hc | Hc].
    + destruct Hp as [Hp | [Hpos Hne]]; [lia |].
      destruct (try_devices bo (ps_devs p) 0 (ps_cnt p) 0 v)
        as [[r v'] |] eqn:E; [| discriminate].
      destruct (supervise r) eqn:Es.
      * unfold supervise in Es.
        destruct (Z.eqb_spec r 0) as [-> | Hr].
        -- apply try_devices_zero in E as [_ [E | E]];
             [contradiction | lia].
        -- destruct (negb (r =? WAIT_FOR_HOTPLUG) && negb (r =? VENDOR_ID_DJI));
             discriminate.
      * unfold supervise in Es.
        destruct (Z.eqb_spec r 0) as [-> | Hr]; [discriminate |].
        injection H as -> _. contradiction.
      * eapply IH; eauto.
    + eapply IH; eauto.
Qed.

Lemma exit_zero_only_on_empty_list_witness :
  supervisor_loop LittleEndian [mkPass nothing_pending [] 1 [some_hub]]
    initial_world
  <> Some (0, initial_world).
Proof.
  apply (exit_zero_only_on_empty_list LittleEndian
           [mkPass nothing_pending [] 1 [some_hub]] initial_world initial_world).
  apply Forall_cons; [| apply Forall_nil].
  right. simpl. split; [lia | discriminate].
Defined.

(** C2 fails on the code for the empty device list: [r] is set to 0 before
    the loop over the devices, the loop body never runs, and line 457 takes
    that 0 for a "return 0" of the streaming code: the program leaves its
    outer loop, calls [libusb_exit] and returns 0, printing no prompt and
    never sleeping. *)
Theorem C2_empty_device_list_exits_with_zero :
  forall bo later,
    observe_return
      (start_usb2sock bo startup_ok (empty_pass :: later) initial_world)
    = Some (0, [UsbExit]).
Proof. intros bo later. vm_compute. reflexivity. Qed.

(** * Further properties of the program *)

(** ** The registry stays within its array *)

Lemma length_store a : forall i v, length (store a i v) = length a.
Proof.
  induction a as [| x a IH]; intros i v; simpl.
  - reflexivity.
  - destruct i; simpl; [reflexivity | rewrite IH; reflexivity].
Qed.

Lemma length_bytes_array bo n : forall mem,
  length (bytes_array bo n mem) = n.
Proof.
  induction n as [| n IH]; intros mem; simpl.
  - reflexivity.
  - rewrite IH. reflexivity.
Qed.

Lemma same_registry_refl w : same_registry w w.
Proof. split; reflexivity. Qed.

Lemma same_registry_log e w : same_registry w (log e w).
Proof. split; reflexivity. Qed.

Lemma same_registry_trans w1 w2 w3 :
  same_registry w1 w2 -> same_registry w2 w3 -> same_registry w1 w3.
Proof. intros [A B] [C D]. split; congruence. Qed.

Lemma registry_ok_same w w' :
  same_registry w w' -> registry_ok w -> registry_ok w'.
Proof. intros [A B] [C D]. unfold registry_ok. rewrite A, B. auto. Qed.

Lemma accept_any_connection_ok a w :
  registry_ok w -> registry_ok (accept_any_connection a w).
Proof.
  intros [Hlen Huse]. unfold accept_any_connection.
  destruct (acc_fd a <? 0).
  - destruct (would_block (acc_errno a)); split; assumption.
  - destruct (negb (acc_saddrlen_ok a)).
    + destruct (acc_ntop_ok a); split; assumption.
    + assert (Hcase : forall v,
                same_registry w v ->
                registry_ok
                  (if Z.of_nat CLIENTLIST_LEN <=? clientlist_use v
                   then log (Close (acc_fd a)) (log (Printf MsgTooManyClients) v)
                   else
                     let v0 :=
                       if acc_fcntl a =? 0 then v
                       else log (Close (acc_fd a))
                              (log (Printf MsgNonblockFailed) v) in
                     let v1 := log (Printf (MsgClient (clientlist_use v0))) v0 in
                     mkWorld (store (clientlist v1)
                                (Z.to_nat (clientlist_use v1)) (acc_fd a))
                             (wrap32 (clientlist_use v1 + 1)) (trace v1))).
      { intros v [Hc Hu].
        destruct (Z.leb_spec (Z.of_nat CLIENTLIST_LEN) (clientlist_use v)).
        - split; cbn [clientlist clientlist_use log]; congruence.
        - cbv zeta.
          assert (Hv : clientlist
                         (if acc_fcntl a =? 0 then v
                          else log (Close (acc_fd a))
                                 (log (Printf MsgNonblockFailed) v))
                       = clientlist w
                       /\ clientlist_use
                            (if acc_fcntl a =? 0 then v
                             else log (Close (acc_fd a))
                                    (log (Printf MsgNonblockFailed) v))
                          = clientlist_use w)
            by (destruct (acc_fcntl a =? 0); split; assumption).
          destruct Hv as [Hc' Hu'].
          split; cbn [clientlist clientlist_use log].
          + rewrite length_store, Hc'. exact Hlen.
          + rewrite Hu'. unfold wrap32. rewrite Hu in *.
            change (2 ^ 32) with 4294967296.
            unfold CLIENTLIST_LEN in *.
            rewrite Z.mod_small by lia. lia. }
      destruct (acc_ntop_ok a); apply Hcase.
      * apply same_registry_log.
      * eapply same_registry_trans; apply same_registry_log.
Qed.

Lemma close_client_ok bo i w :
  registry_ok w -> 1 <= clientlist_use w -> registry_ok (close_client bo i w).
Proof.
  intros [Hlen Huse] H1. unfold close_client, registry_ok.
  cbn [clientlist clientlist_use log]. rewrite length_bytes_array.
  split; [exact Hlen |].
  unfold wrap32. change (2 ^ 32) with 4294967296. unfold CLIENTLIST_LEN in *.
  rewrite Z.mod_small by lia. lia.
Qed.

Lemma recv_loop_ok bo reads : forall i w w',
  registry_ok w -> 0 <= i ->
  recv_loop bo reads i w = Some w' -> registry_ok w'.
Proof.
  induction reads as [| rd reads IH]; intros i w w' Hok Hi Hrun;
    cbn [recv_loop] in Hrun;
    destruct (Z.ltb_spec i (clientlist_use w)) as [Hlt | Hge];
    try discriminate; try (injection Hrun as <-; exact Hok).
  assert (Hnext : 0 <= wrap32 (i + 1))
    by (unfold wrap32; apply Z.mod_pos_bound; reflexivity).
  set (v := log (Read (client_at w i) (io_n rd)) w) in *.
  assert (Hv : registry_ok v)
    by (apply (registry_ok_same w); [apply same_registry_log | exact Hok]).
  assert (Hc : registry_ok (close_client bo i v))
    by (apply close_client_ok; [exact Hv | cbn; lia]).
  destruct (io_n rd <? 0).
  - destruct (would_block (io_errno rd));
      (eapply IH; [| | exact Hrun]; assumption).
  - destruct (io_n rd =? 0); (eapply IH; [| | exact Hrun]; assumption).
Qed.

Lemma send_loop_ok bo writes : forall buflen ofs i w w',
  registry_ok w -> 0 <= i ->
  send_loop bo writes buflen ofs i w = Some w' -> registry_ok w'.
Proof.
  induction writes as [| wr writes IH]; intros buflen ofs i w w' Hok Hi Hrun;
    cbn [send_loop] in Hrun;
    destruct (Z.ltb_spec i (clientlist_use w)) as [Hlt | Hge];
    try discriminate; try (injection Hrun as <-; exact Hok).
  assert (Hnext : 0 <= wrap32 (i + 1))
    by (unfold wrap32; apply Z.mod_pos_bound; reflexivity).
  set (v := log (Write (client_at w i) ofs (buflen - ofs) (io_n wr)) w) in *.
  assert (Hv : registry_ok v)
    by (apply (registry_ok_same w); [apply same_registry_log | exact Hok]).
  assert (Hc : registry_ok (close_client bo i v))
    by (apply close_client_ok; [exact Hv | cbn; lia]).
  destruct (io_n wr <? 0).
  - destruct (negb (would_block (io_errno wr)));
      (eapply IH; [| | exact Hrun]; assumption).
  - destruct (0 <? io_n wr); [| eapply IH; [| | exact Hrun]; assumption].
    destruct (ofs + io_n wr <? buflen);
      (eapply IH; [| | exact Hrun]; assumption).
Qed.

Lemma classify_bulk_in_ok bo r success writes count w c w' :
  registry_ok w ->
  classify_bulk_in bo r success writes count w = Some (c, w') ->
  registry_ok w'.
Proof.
  intros Hok. unfold classify_bulk_in.
  assert (Hlog : forall e, registry_ok (log e w))
    by (intros e; apply (registry_ok_same w);
        [apply same_registry_log | exact Hok]).
  assert (Hlog2 : forall e1 e2, registry_ok (log e2 (log e1 w)))
    by (intros e1 e2; apply (registry_ok_same (log e1 w));
        [apply same_registry_log | apply Hlog]).
  destruct ((r =? LIBUSB_ERROR_TIMEOUT) && (success =? 0));
    [intros [= _ <-]; apply Hlog2 |].
  destruct (r =? LIBUSB_ERROR_IO); [intros [= _ <-]; apply Hlog |].
  destruct (r =? LIBUSB_ERROR_NO_DEVICE); [intros [= _ <-]; apply Hlog |].
  destruct (r =? LIBUSB_ERROR_NOT_FOUND); [intros [= _ <-]; apply Hlog |].
  destruct (negb (r =? 0)); [intros [= _ <-]; apply Hlog |].
  destruct (send_to_socket bo writes success _) as [v |] eqn:E;
    [| discriminate].
  intros [= _ <-]. unfold send_to_socket in E.
  eapply send_loop_ok; [| | exact E]; [apply Hlog | lia].
Qed.

Lemma stream_iteration_ok bo t count w c w' :
  registry_ok w ->
  stream_iteration bo t count w = Some (c, w') -> registry_ok w'.
Proof.
  intros Hok Hrun. unfold stream_iteration in Hrun.
  destruct (recv_and_discard bo (tk_reads t) _) as [v |] eqn:Ed;
    [| discriminate].
  assert (Hv : registry_ok v).
  { unfold recv_and_discard in Ed.
    eapply recv_loop_ok; [| | exact Ed];
      [apply accept_any_connection_ok, Hok | lia]. }
  destruct (tk_bulk t) as [rb sb].
  eapply classify_bulk_in_ok; [| exact Hrun].
  apply (registry_ok_same v); [apply same_registry_log | exact Hv].
Qed.

Lemma stream_loop_ok bo ticks : forall count w r w',
  registry_ok w ->
  stream_loop bo ticks count w = Some (r, w') -> registry_ok w'.
Proof.
  induction ticks as [| t ticks IH]; intros count w r w' Hok Hrun;
    cbn [stream_loop] in Hrun; [discriminate |].
  unfold stream_iteration in Hrun.
  destruct (recv_and_discard bo (tk_reads t) _) as [v |] eqn:Ed;
    [| discriminate].
  assert (Hv : registry_ok v).
  { unfold recv_and_discard in Ed.
    eapply recv_loop_ok; [| | exact Ed];
      [apply accept_any_connection_ok, Hok | lia]. }
  destruct (tk_bulk t) as [rb sb].
  destruct (classify_bulk_in bo rb sb (tk_writes t) count _)
    as [[c v'] |] eqn:Ec; [| discriminate].
  assert (Hv' : registry_ok v').
  { eapply classify_bulk_in_ok; [| exact Ec].
    apply (registry_ok_same v); [apply same_registry_log | exact Hv]. }
  destruct c as [count' | r0].
  - eapply IH; eauto.
  - injection Hrun as _ <-. exact Hv'.
Qed.

Lemma start_stream_ok bo magic ticks w r w' :
  registry_ok w ->
  start_stream bo magic ticks w = Some (r, w') -> registry_ok w'.
Proof.
  intros Hok. destruct magic as [rm sm]. unfold start_stream.
  assert (H0 : registry_ok (log (UsbBulkOut MAGIC_PACKET_LEN) w))
    by (apply (registry_ok_same w); [apply same_registry_log | exact Hok]).
  assert (Hlog : forall e, registry_ok (log e (log (UsbBulkOut MAGIC_PACKET_LEN) w)))
    by (intros e; eapply registry_ok_same; [apply same_registry_log | exact H0]).
  destruct ((rm =? LIBUSB_ERROR_TIMEOUT) && (sm =? 0));
    [apply stream_loop_ok, H0 |].
  destruct (rm =? LIBUSB_ERROR_IO); [intros [= _ <-]; apply Hlog |].
  destruct (negb (rm =? 0)); [intros [= _ <-]; apply Hlog |].
  destruct (negb (sm =? MAGIC_PACKET_LEN)); [intros [= _ <-]; apply Hlog |].
  apply stream_loop_ok, H0.
Qed.

(** The scan of the descriptors and the configuration step only print. *)
Lemma scan_altsettings_same alts : forall i nalt j s w,
  same_registry w (snd (scan_altsettings alts i nalt j s w)).
Proof.
  induction alts as [| alt alts IH]; intros i nalt j s w; simpl.
  - apply same_registry_refl.
  - destruct (scan_endpoints (endpoint alt) (-1) (-1)) as [fi fo].
    destruct ((j =? 0) && _).
    + destruct (negb (fi =? -1) && negb (fo =? -1)); apply IH.
    + destruct ((bInterfaceClass alt =? 255) && _); [| apply IH].
      eapply same_registry_trans; [apply same_registry_log | apply IH].
Qed.

Lemma scan_interfaces_same ifaces : forall i s w,
  same_registry w (snd (scan_interfaces ifaces i s w)).
Proof.
  induction ifaces as [| iface ifaces IH]; intros i s w; simpl.
  - apply same_registry_refl.
  - match goal with
    | |- context [scan_altsettings ?a ?i ?n 0 ?s ?u] =>
        pose proof (scan_altsettings_same a i n 0 s u) as Ha;
        destruct (scan_altsettings a i n 0 s u) as [s1 v1]
    end.
    cbn [snd] in Ha.
    eapply same_registry_trans; [| apply IH].
    eapply same_registry_trans; [| exact Ha].
    destruct (Z.of_nat (length (altsetting iface)) =? 0);
      [apply same_registry_log | apply same_registry_refl].
Qed.

Lemma configure_same d w : same_registry w (snd (configure d w)).
Proof.
  unfold configure. destruct (dev_get_configuration d) as [r cfg].
  destruct (negb (r =? 0)); [apply same_registry_log |].
  destruct (cfg =? 0); [| apply same_registry_refl].
  destruct (negb (dev_set_configuration d =? 0)); cbn [snd]; split; reflexivity.
Qed.

Lemma claim_and_stream_ok bo d s w r w' :
  registry_ok w ->
  claim_and_stream bo d s w = Some (r, w') -> registry_ok w'.
Proof.
  intros Hok. unfold claim_and_stream.
  set (v := log (UsbClaimInterface (find_FF_43 s)) w).
  assert (Hv : registry_ok v)
    by (apply (registry_ok_same w); [apply same_registry_log | exact Hok]).
  assert (Hlog : forall u e, registry_ok u -> registry_ok (log e u))
    by (intros u e Hu; apply (registry_ok_same u);
        [apply same_registry_log | exact Hu]).
  destruct (negb (dev_claim_interface d (find_FF_43 s) =? 0));
    [intros [= _ <-]; auto |].
  destruct (dev_get_configuration_again d) as [r2 cfg].
  destruct (negb (r2 =? 0)); [intros [= _ <-]; auto |].
  destruct (start_stream bo (dev_magic d) (dev_stream d) _)
    as [[r3 u] |] eqn:Es; [| discriminate].
  intros [= _ <-]. apply Hlog.
  eapply start_stream_ok; [| exact Es].
  destruct (negb (cfg =? 1) || negb (bNumConfigurations d =? 1)); auto.
Qed.

Lemma start_with_a_device_ok bo d w r w' :
  registry_ok w ->
  start_with_a_device bo d w = Some (r, w') -> registry_ok w'.
Proof.
  intros Hok. unfold start_with_a_device.
  assert (Hlog : forall u e, registry_ok u -> registry_ok (log e u))
    by (intros u e Hu; apply (registry_ok_same u);
        [apply same_registry_log | exact Hu]).
  destruct (negb (dev_get_device_descriptor d =? 0));
    [intros [= _ <-]; auto |].
  destruct (negb (idVendor d =? VENDOR_ID_DJI)
            || negb (idProduct d =? DEVICE_ID_GOGGLES));
    [intros [= _ <-]; auto |].
  destruct (negb (dev_open d =? 0)); [intros [= _ <-]; auto |].
  pose proof (configure_same d (log UsbOpen w)) as Hc.
  destruct (configure d (log UsbOpen w)) as [[rc |] v]; cbn [snd] in Hc.
  - intros [= _ <-]. eapply registry_ok_same; [exact Hc | auto].
  - assert (Hv : registry_ok v)
      by (eapply registry_ok_same; [exact Hc | auto]).
    destruct (negb (dev_get_config_descriptor d =? 0));
      [intros [= _ <-]; auto |].
    pose proof (scan_interfaces_same (interfaces (dev_cdesc d)) 0
                  (mkResolved (-1) (-1) (-1)) v) as Hs.
    destruct (scan_interfaces _ _ _ _) as [s v2]. cbn [snd] in Hs.
    apply claim_and_stream_ok.
    eapply registry_ok_same; [exact Hs | exact Hv].
Qed.

Lemma try_devices_ok bo devs : forall i cnt r0 w r w',
  registry_ok w ->
  try_devices bo devs i cnt r0 w = Some (r, w') -> registry_ok w'.
Proof.
  induction devs as [| d devs IH]; intros i cnt r0 w r w' Hok Hrun;
    cbn [try_devices] in Hrun.
  - injection Hrun as _ <-. exact Hok.
  - destruct (i <? cnt); [| injection Hrun as _ <-; exact Hok].
    destruct (start_with_a_device bo d w) as [[r1 v] |] eqn:E;
      [| discriminate].
    apply start_with_a_device_ok in E; [| exact Hok].
    destruct (r1 =? VENDOR_ID_DJI).
    + eapply IH; eauto.
    + injection Hrun as _ <-. exact E.
Qed.

Lemma supervisor_loop_ok bo passes : forall w r w',
  registry_ok w ->
  supervisor_loop bo passes w = Some (r, w') -> registry_ok w'.
Proof.
  induction passes as [| p passes IH]; intros w r w' Hok Hrun;
    cbn [supervisor_loop] in Hrun; [discriminate |].
  assert (Hlog : forall u e, registry_ok u -> registry_ok (log e u))
    by (intros u e Hu; apply (registry_ok_same u);
        [apply same_registry_log | exact Hu]).
  destruct (recv_and_discard bo (ps_reads p) _) as [v |] eqn:Ed;
    [| discriminate].
  assert (Hv : registry_ok v).
  { unfold recv_and_discard in Ed.
    eapply recv_loop_ok; [| | exact Ed];
      [apply accept_any_connection_ok, Hok | lia]. }
  destruct (0 <=? ps_cnt p); [| eapply IH; eauto].
  destruct (try_devices bo (ps_devs p) 0 (ps_cnt p) 0 v)
    as [[r1 v1] |] eqn:Et; [| discriminate].
  apply try_devices_ok in Et; [| exact Hv].
  destruct (supervise r1).
  - injection Hrun as _ <-. auto.
  - injection Hrun as _ <-. auto.
  - eapply IH; [| exact Hrun]. auto.
Qed.

(** The registry never leaves its array.  From a state in which
    [clientlist] has its 1024 entries and [clientlist_use] lies between 0
    and 1024, whatever the environment answers, such a state is reached
    again by an accept, by the removal of a registered peer, by a drain, by
    a broadcast and by one pass through the body of the streaming loop; and
    by [start_stream], [start_with_a_device] and [start_usb2sock] when they
    return. *)
Theorem registry_never_leaves_its_array :
  forall bo w,
    registry_ok w ->
    (forall a, registry_ok (accept_any_connection a w))
    /\ (forall i, 0 <= i < clientlist_use w ->
                  registry_ok (close_client bo i w))
    /\ (forall reads w',
          recv_and_discard bo reads w = Some w' -> registry_ok w')
    /\ (forall writes buflen w',
          send_to_socket bo writes buflen w = Some w' -> registry_ok w')
    /\ (forall t count c w',
          stream_iteration bo t count w = Some (c, w') -> registry_ok w')
    /\ (forall magic ticks r w',
          start_stream bo magic ticks w = Some (r, w') -> registry_ok w')
    /\ (forall d r w',
          start_with_a_device bo d w = Some (r, w') -> registry_ok w')
    /\ (forall su passes r w',
          start_usb2sock bo su passes w = Some (r, w') -> registry_ok w').
Proof.
  intros bo w Hok. conjuncts.
  - intros a. apply accept_any_connection_ok, Hok.
  - intros i Hi. apply close_client_ok; [exact Hok | lia].
  - intros reads w' Hrun. unfold recv_and_discard in Hrun.
    eapply recv_loop_ok; [| | exact Hrun]; [exact Hok | lia].
  - intros writes buflen w' Hrun. unfold send_to_socket in Hrun.
    eapply send_loop_ok; [| | exact Hrun]; [exact Hok | lia].
  - intros t count c w' Hrun.
    exact (stream_iteration_ok bo t count w c w' Hok Hrun).
  - intros magic ticks r w' Hrun.
    exact (start_stream_ok bo magic ticks w r w' Hok Hrun).
  - intros d r w' Hrun.
    exact (start_with_a_device_ok bo d w r w' Hok Hrun).
  - intros su passes r w'. unfold start_usb2sock.
    assert (Hlog : forall e, registry_ok (log e w))
      by (intros e; apply (registry_ok_same w);
          [apply same_registry_log | exact Hok]).
    destruct (su_init_context su <? 0); [intros [= _ <-]; apply Hlog |].
    destruct ((su_socket su <? 0) || _ || _ || _ || _ || _);
      [intros [= _ <-]; apply Hlog |].
    apply supervisor_loop_ok, Hok.
Qed.

Lemma registry_never_leaves_its_array_witness :
  registry_ok (close_client LittleEndian 0 three_peers)
  /\ start_usb2sock LittleEndian startup_ok busy_passes initial_world
     = Some (LIBUSB_ERROR_NOT_FOUND, busy_run_end)
  /\ registry_ok busy_run_end.
Proof.
  assert (Hrun : start_usb2sock LittleEndian startup_ok busy_passes
                   initial_world
                 = Some (LIBUSB_ERROR_NOT_FOUND, busy_run_end))
    by (vm_compute; reflexivity).
  assert (H0 : registry_ok initial_world)
    by (split; [reflexivity | simpl; lia]).
  assert (H3 : registry_ok three_peers)
    by (split; [| split]; vm_compute; [reflexivity | |]; discriminate).
  split; [| split; [exact Hrun |]].
  - apply (registry_never_leaves_its_array LittleEndian three_peers H3).
    split; vm_compute; [discriminate | reflexivity].
  - apply (registry_never_leaves_its_array LittleEndian initial_world H0)
      with (su := startup_ok) (passes := busy_passes)
           (r := LIBUSB_ERROR_NOT_FOUND).
    exact Hrun.
Defined.

(** ** Accepting a connection *)

Lemma firstn_store a : forall n v,
  (n < length a)%nat -> firstn (S n) (store a n v) = firstn n a ++ [v].
Proof.
  induction a as [| x a IH]; intros n v Hn; simpl in Hn.
  - lia.
  - destruct n as [| n].
    + reflexivity.
    + change (firstn (S (S n)) (store (x :: a) (S n) v))
        with (x :: firstn (S n) (store a n v)).
      rewrite IH by lia. reflexivity.
Qed.

Lemma closes_log fd e w :
  closes fd (trace (log e w))
  = (closes fd (trace w) + (if is_close fd e then 1 else 0))%nat.
Proof.
  unfold closes. cbn [trace log]. rewrite filter_app, length_app.
  cbn [filter]. destruct (is_close fd e); reflexivity.
Qed.

(** A connection that arrives while there is room is registered at the
    end of the registry: the peers already there keep their places, and
    the count grows by one. *)
Theorem accept_appends_to_registry :
  forall a w,
    registry_ok w ->
    connection_arrived a ->
    clientlist_use w < Z.of_nat CLIENTLIST_LEN ->
    registry (accept_any_connection a w) = registry w ++ [acc_fd a]
    /\ clientlist_use (accept_any_connection a w) = clientlist_use w + 1.
Proof.
  intros a w [Hlen Huse] [Hfd Hsz] Hroom. unfold accept_any_connection.
  destruct (Z.ltb_spec (acc_fd a) 0); [lia |]. rewrite Hsz. cbn [negb].
  assert (Hgo : forall v,
            same_registry w v ->
            let v' :=
              if Z.of_nat CLIENTLIST_LEN <=? clientlist_use v
              then log (Close (acc_fd a)) (log (Printf MsgTooManyClients) v)
              else
                let v0 :=
                  if acc_fcntl a =? 0 then v
                  else log (Close (acc_fd a))
                         (log (Printf MsgNonblockFailed) v) in
                let v1 := log (Printf (MsgClient (clientlist_use v0))) v0 in
                mkWorld (store (clientlist v1)
                           (Z.to_nat (clientlist_use v1)) (acc_fd a))
                        (wrap32 (clientlist_use v1 + 1)) (trace v1) in
            registry v' = registry w ++ [acc_fd a]
            /\ clientlist_use v' = clientlist_use w + 1).
  { intros v [Hc Hu]. cbv zeta.
    destruct (Z.leb_spec (Z.of_nat CLIENTLIST_LEN) (clientlist_use v));
      [lia |].
    assert (Hw : wrap32 (clientlist_use w + 1) = clientlist_use w + 1).
    { unfold wrap32. change (2 ^ 32) with 4294967296.
      unfold CLIENTLIST_LEN in *. apply Z.mod_small. lia. }
    destruct (acc_fcntl a =? 0);
      unfold registry; cbn [clientlist clientlist_use log];
      rewrite Hc, Hu, Hw;
      (split; [| reflexivity]);
      replace (Z.to_nat (clientlist_use w + 1))
        with (S (Z.to_nat (clientlist_use w))) by lia;
      apply firstn_store; unfold CLIENTLIST_LEN in *; lia. }
  destruct (acc_ntop_ok a); apply Hgo.
  - apply same_registry_log.
  - eapply same_registry_trans; apply same_registry_log.
Qed.

Lemma accept_appends_to_registry_witness :
  registry (accept_any_connection (accepted 6) three_peers)
  = registry three_peers ++ [6].
Proof.
  apply (accept_appends_to_registry (accepted 6) three_peers).
  - split; [reflexivity | vm_compute; split; discriminate].
  - split; [simpl; lia | reflexivity].
  - reflexivity.
Defined.

(** A connection that arrives while the registry is full is closed at once
    and never registered; the array and the count are as they were. *)
Theorem accept_at_capacity_closes_newcomer :
  forall a w,
    connection_arrived a ->
    Z.of_nat CLIENTLIST_LEN <= clientlist_use w ->
    same_registry w (accept_any_connection a w)
    /\ closes (acc_fd a) (trace (accept_any_connection a w))
       = S (closes (acc_fd a) (trace w)).
Proof.
  intros a w [Hfd Hsz] Hfull. unfold accept_any_connection.
  destruct (Z.ltb_spec (acc_fd a) 0); [lia |]. rewrite Hsz. cbn [negb].
  destruct (acc_ntop_ok a); cbn [clientlist_use log];
    (destruct (Z.leb_spec (Z.of_nat CLIENTLIST_LEN) (clientlist_use w));
     [| lia]);
    (split; [split; reflexivity |]);
    rewrite !closes_log; cbn [is_close]; rewrite Z.eqb_refl; lia.
Qed.

Lemma accept_at_capacity_closes_newcomer_witness :
  same_registry full_registry
    (accept_any_connection (accepted 9) full_registry)
  /\ closes 9 (trace (accept_any_connection (accepted 9) full_registry))
     = S (closes 9 (trace full_registry)).
Proof.
  apply (accept_at_capacity_closes_newcomer (accepted 9) full_registry).
  - split; [simpl; lia | reflexivity].
  - simpl. lia.
Defined.

(** A connection whose address comes back with the wrong size is dropped
    without being registered, but its descriptor is not closed: the
    program keeps no reference to it, and it stays open. *)
Theorem accept_wrong_size_leaves_descriptor_open :
  forall a w,
    0 <= acc_fd a ->
    acc_saddrlen_ok a = false ->
    same_registry w (accept_any_connection a w)
    /\ In (Accept (acc_fd a)) (trace (accept_any_connection a w))
    /\ forall fd,
         closes fd (trace (accept_any_connection a w)) = closes fd (trace w).
Proof.
  intros a w Hfd Hsz. unfold accept_any_connection.
  destruct (Z.ltb_spec (acc_fd a) 0); [lia |]. rewrite Hsz. cbn [negb].
  destruct (acc_ntop_ok a);
    (split; [split; reflexivity | split]);
    try (intros fd; rewrite !closes_log; cbn [is_close]; lia);
    cbn [trace log]; rewrite !in_app_iff; cbn [In]; tauto.
Qed.

Lemma accept_wrong_size_leaves_descriptor_open_witness :
  same_registry three_peers
    (accept_any_connection (accepted_wrong_size 6) three_peers)
  /\ In (Accept 6)
        (trace (accept_any_connection (accepted_wrong_size 6) three_peers))
  /\ forall fd,
       closes fd
         (trace (accept_any_connection (accepted_wrong_size 6) three_peers))
       = closes fd (trace three_peers).
Proof.
  apply (accept_wrong_size_leaves_descriptor_open (accepted_wrong_size 6)
           three_peers).
  - simpl. lia.
  - reflexivity.
Defined.

(** ** What [close_client] does to the array *)

Lemma by_fours (P : nat -> Prop) :
  P 0%nat -> P 1%nat -> P 2%nat -> P 3%nat ->
  (forall n, P n -> P (4 + n)%nat) ->
  forall n, P n.
Proof.
  intros H0 H1 H2 H3 Hstep n.
  assert (H : P n /\ P (S n) /\ P (S (S n)) /\ P (S (S (S n)))).
  { induction n as [| n (Ha & Hb & Hc & Hd)].
    - auto.
    - repeat split; try assumption. apply (Hstep n Ha). }
  apply H.
Qed.

(** [quarters n] is [n / 4] rounded up. *)
Lemma quarters_bounds n :
  (n <= 4 * quarters n /\ 4 * quarters n < n + 4)%nat.
Proof.
  induction n as [| | | | n IH] using by_fours; cbn [quarters]; try lia.
  change (quarters (4 + n)) with (S (quarters n)). lia.
Qed.

Lemma length_int_bytes bo v : length (int_bytes bo v) = SIZEOF_INT.
Proof. destruct bo; reflexivity. Qed.

Lemma length_array_bytes bo l :
  length (array_bytes bo l) = (SIZEOF_INT * length l)%nat.
Proof.
  induction l as [| v l IH]; [reflexivity |].
  cbn [array_bytes flat_map]. rewrite length_app, length_int_bytes.
  fold (array_bytes bo l). rewrite IH. cbn [length]. lia.
Qed.

Lemma array_bytes_app bo l1 l2 :
  array_bytes bo (l1 ++ l2) = array_bytes bo l1 ++ array_bytes bo l2.
Proof. apply flat_map_app. Qed.

Lemma array_bytes_cons bo v l :
  array_bytes bo (v :: l) = int_bytes bo v ++ array_bytes bo l.
Proof. reflexivity. Qed.

Lemma firstn_exact {A} (l1 l2 : list A) n :
  length l1 = n -> firstn n (l1 ++ l2) = l1.
Proof.
  intros <-. rewrite firstn_app, Nat.sub_diag, firstn_all. cbn [firstn].
  apply app_nil_r.
Qed.

Lemma skipn_exact {A} (l1 l2 : list A) n :
  length l1 = n -> skipn n (l1 ++ l2) = l2.
Proof.
  intros <-. rewrite skipn_app, Nat.sub_diag, skipn_all. reflexivity.
Qed.

Lemma firstn_past {A} (l1 l2 : list A) n m :
  length l1 = n -> firstn (n + m) (l1 ++ l2) = l1 ++ firstn m l2.
Proof. intros <-. apply firstn_app_2. Qed.

Lemma skipn_past {A} (l1 l2 : list A) n m :
  length l1 = n -> skipn (n + m) (l1 ++ l2) = skipn m l2.
Proof.
  intros <-. rewrite skipn_app.
  rewrite skipn_all2 by lia.
  replace (length l1 + m - length l1)%nat with m by lia. reflexivity.
Qed.

(** Several [int]s are read back one after the other. *)
Lemma bytes_array_app bo k : forall N mid rest,
  length mid = (SIZEOF_INT * k)%nat ->
  bytes_array bo (k + N) (mid ++ rest)
  = bytes_array bo k mid ++ bytes_array bo N rest.
Proof.
  induction k as [| k IH]; intros N mid rest Hlen.
  - destruct mid; [reflexivity | discriminate].
  - cbn [Nat.add bytes_array app].
    assert (H4 : (SIZEOF_INT <= length mid)%nat) by lia.
    rewrite firstn_app, skipn_app.
    replace (SIZEOF_INT - length mid)%nat with 0%nat by lia.
    cbn [firstn skipn]. rewrite app_nil_r.
    rewrite IH; [reflexivity |].
    rewrite length_skipn. lia.
Qed.

(** The slip of [close_client], byte by byte: [n] bytes of the entries
    above [x] are laid over [x] and what follows it.  The bytes touched end
    inside entry number [quarters n]; what lies beyond is as it was. *)
Lemma overlay_reaches_quarters bo : forall n x rest,
  (n <= length rest)%nat ->
  exists mid,
    length mid = (SIZEOF_INT * quarters n)%nat
    /\ firstn n (array_bytes bo rest) ++ skipn n (array_bytes bo (x :: rest))
       = mid ++ array_bytes bo (skipn (quarters n) (x :: rest)).
Proof.
  induction n as [| | | | n IH] using by_fours; intros x rest Hn.
  - exists []. split; reflexivity.
  - destruct rest as [| a rest]; [simpl in Hn; lia |].
    exists (firstn 1 (int_bytes bo a) ++ skipn 1 (int_bytes bo x)).
    split; [destruct bo; reflexivity |].
    rewrite !array_bytes_cons. destruct bo; reflexivity.
  - destruct rest as [| a rest]; [simpl in Hn; lia |].
    exists (firstn 2 (int_bytes bo a) ++ skipn 2 (int_bytes bo x)).
    split; [destruct bo; reflexivity |].
    rewrite !array_bytes_cons. destruct bo; reflexivity.
  - destruct rest as [| a rest]; [simpl in Hn; lia |].
    exists (firstn 3 (int_bytes bo a) ++ skipn 3 (int_bytes bo x)).
    split; [destruct bo; reflexivity |].
    rewrite !array_bytes_cons. destruct bo; reflexivity.
  - destruct rest as [| a rest]; [simpl in Hn; lia |].
    destruct (IH a rest ltac:(simpl in Hn; lia)) as (mid & Hlen & Hmid).
    exists (int_bytes bo a ++ mid). split.
    + rewrite length_app, length_int_bytes, Hlen.
      change (quarters (4 + n)) with (S (quarters n)). lia.
    + change (quarters (4 + n)) with (S (quarters n)).
      rewrite skipn_cons, <- app_assoc, <- Hmid.
      rewrite (array_bytes_cons bo a rest), (array_bytes_cons bo x (a :: rest)).
      rewrite (firstn_past _ _ 4 n (length_int_bytes bo a)).
      rewrite (skipn_past _ _ 4 n (length_int_bytes bo x)).
      rewrite <- app_assoc. reflexivity.
Qed.

(** With one-byte descriptors on a little-endian machine the bytes laid
    over are whole values: the first [quarters n] entries above [x] have
    moved down, and no more. *)
Lemma overlay_small_little_endian : forall n x rest,
  (n <= length rest)%nat ->
  small x -> Forall small rest ->
  firstn n (array_bytes LittleEndian rest)
  ++ skipn n (array_bytes LittleEndian (x :: rest))
  = array_bytes LittleEndian
      (firstn (quarters n) rest ++ skipn (quarters n) (x :: rest)).
Proof.
  assert (Hsmall : forall v, small v -> int_bytes LittleEndian v = [v; 0; 0; 0]).
  { intros v [Hv0 Hv1]. unfold int_bytes, int_bytes_lsb, wrap32.
    change (2 ^ 32) with 4294967296. change (2 ^ 8) with 256.
    change (2 ^ 16) with 65536. change (2 ^ 24) with 16777216.
    rewrite (Z.mod_small v 4294967296) by lia.
    rewrite (Z.mod_small v 256) by lia.
    rewrite !Z.div_small by lia. reflexivity. }
  induction n as [| | | | n IH] using by_fours; intros x rest Hn Hx Hrest.
  - reflexivity.
  - destruct rest as [| a rest]; [simpl in Hn; lia |].
    inversion Hrest as [| ? ? Ha _]; subst.
    cbn [quarters firstn skipn app]. rewrite !array_bytes_cons.
    rewrite (Hsmall a Ha), (Hsmall x Hx). reflexivity.
  - destruct rest as [| a rest]; [simpl in Hn; lia |].
    inversion Hrest as [| ? ? Ha _]; subst.
    cbn [quarters firstn skipn app]. rewrite !array_bytes_cons.
    rewrite (Hsmall a Ha), (Hsmall x Hx). reflexivity.
  - destruct rest as [| a rest]; [simpl in Hn; lia |].
    inversion Hrest as [| ? ? Ha _]; subst.
    cbn [quarters firstn skipn app]. rewrite !array_bytes_cons.
    rewrite (Hsmall a Ha), (Hsmall x Hx). reflexivity.
  - destruct rest as [| a rest]; [simpl in Hn; lia |].
    inversion Hrest as [| ? ? Ha Hrest']; subst.
    change (quarters (4 + n)) with (S (quarters n)).
    rewrite skipn_cons. cbn [firstn app].
    rewrite (array_bytes_cons _ a (firstn _ _ ++ _)).
    rewrite <- (IH a rest ltac:(simpl in Hn; lia) Ha Hrest').
    rewrite (array_bytes_cons _ a rest), (array_bytes_cons _ x (a :: rest)).
    rewrite (firstn_past _ _ 4 n (length_int_bytes _ a)).
    rewrite (skipn_past _ _ 4 n (length_int_bytes _ x)).
    rewrite <- app_assoc. reflexivity.
Qed.

Lemma quarters_le n : (quarters n <= n)%nat.
Proof. pose proof (quarters_bounds n). lia. Qed.

Lemma Forall_firstn {A} (P : A -> Prop) l : forall n,
  Forall P l -> Forall P (firstn n l).
Proof.
  induction l as [| x l IH]; intros n H; destruct n; cbn [firstn];
    try constructor; inversion H; subst; auto.
Qed.

Lemma Forall_skipn {A} (P : A -> Prop) l : forall n,
  Forall P l -> Forall P (skipn n l).
Proof.
  induction l as [| x l IH]; intros n H; destruct n; cbn [skipn];
    try assumption. inversion H; subst; auto.
Qed.

Lemma small_int_range v : small v -> int_range v.
Proof. unfold small, int_range. change (2 ^ 31) with 2147483648. lia. Qed.

(** The array after [close_client i], as memory: the entries below [i],
    then [n] bytes of the entries above [i] laid over entry [i] and what
    follows, where [n] is the number of registered entries above [i]. *)
Lemma close_client_array bo i w :
  0 <= i < clientlist_use w ->
  clientlist_use w <= Z.of_nat (length (clientlist w)) ->
  clientlist_use w < 2 ^ 32 ->
  let I := Z.to_nat i in
  let n := Z.to_nat (clientlist_use w - 1 - i) in
  let rest := skipn (S I) (clientlist w) in
  clientlist (close_client bo i w)
  = bytes_array bo (length (clientlist w))
      (array_bytes bo (firstn I (clientlist w))
       ++ firstn n (array_bytes bo rest)
       ++ skipn n (array_bytes bo (client_at w i :: rest))).
Proof.
  intros Hi Hlen Hmax I n rest.
  unfold close_client. cbn [clientlist clientlist_use log].
  rewrite (wrap32_small (clientlist_use w - 1)) by (change (2 ^ 32) with 4294967296 in *; lia).
  rewrite (wrap32_small (clientlist_use w - 1 - i)) by (change (2 ^ 32) with 4294967296 in *; lia).
  fold n. fold I. f_equal.
  assert (Hsplit : clientlist w
                   = firstn I (clientlist w) ++ client_at w i :: rest).
  { rewrite <- (firstn_skipn I (clientlist w)) at 1. f_equal.
    apply skipn_nth_cons. lia. }
  assert (HA : length (array_bytes bo (firstn I (clientlist w)))
               = (SIZEOF_INT * I)%nat).
  { rewrite length_array_bytes, length_firstn. lia. }
  unfold memmove. rewrite Hsplit at 1 2 3.
  rewrite array_bytes_app.
  rewrite (firstn_exact _ _ _ HA).
  replace (Z.to_nat (i + 1)) with (S I) by lia.
  replace (SIZEOF_INT * S I)%nat with (SIZEOF_INT * I + SIZEOF_INT)%nat by lia.
  rewrite (skipn_past _ _ _ SIZEOF_INT HA).
  rewrite (skipn_past _ _ _ n HA).
  rewrite (array_bytes_cons bo (client_at w i) rest) at 1.
  rewrite (skipn_exact _ _ _ (length_int_bytes bo (client_at w i))).
  reflexivity.
Qed.

(** What [close_client i] does on any machine: it closes the handle at
    index [i] and lowers the count by one; the array keeps its size; the
    entries below [i] are untouched, and so are those from index
    [i + quarters n] on, [n] being the number of registered entries above
    [i].  Only [quarters n] entries, a quarter of those that should move,
    are written. *)
Theorem close_client_touches_a_quarter :
  forall bo i w,
    Forall int_range (clientlist w) ->
    0 <= i < clientlist_use w ->
    clientlist_use w <= Z.of_nat (length (clientlist w)) ->
    clientlist_use w < 2 ^ 32 ->
    let w' := close_client bo i w in
    let I := Z.to_nat i in
    let k := quarters (Z.to_nat (clientlist_use w - 1 - i)) in
    clientlist_use w' = clientlist_use w - 1
    /\ trace w' = trace w ++ [Close (client_at w i)]
    /\ length (clientlist w') = length (clientlist w)
    /\ firstn I (clientlist w') = firstn I (clientlist w)
    /\ skipn (I + k) (clientlist w') = skipn (I + k) (clientlist w).
Proof.
  intros bo i w Hints Hi Hlen Hmax w' I k.
  assert (Hcl := close_client_array bo i w Hi Hlen Hmax). cbv zeta in Hcl.
  fold I in Hcl. subst w'.
  set (n := Z.to_nat (clientlist_use w - 1 - i)) in *.
  set (rest := skipn (S I) (clientlist w)) in *.
  assert (Hn : (n <= length rest)%nat)
    by (unfold rest; rewrite length_skipn; lia).
  destruct (overlay_reaches_quarters bo n (client_at w i) rest Hn)
    as (mid & Hmid & Hover).
  fold k in Hmid, Hover. rewrite Hover in Hcl.
  assert (Hk : (k <= n)%nat) by apply quarters_le.
  assert (Htail : skipn k (client_at w i :: rest) = skipn (I + k) (clientlist w)).
  { unfold rest, client_at. fold I.
    rewrite <- (skipn_nth_cons (clientlist w) I) by lia.
    rewrite skipn_skipn. f_equal. lia. }
  rewrite Htail in Hcl.
  assert (HlenA : length (firstn I (clientlist w)) = I)
    by (rewrite length_firstn; lia).
  assert (HlenC : length (skipn (I + k) (clientlist w))
                  = (length (clientlist w) - I - k)%nat)
    by (rewrite length_skipn; lia).
  replace (length (clientlist w))
    with (I + (k + length (skipn (I + k) (clientlist w))))%nat in Hcl at 1
    by lia.
  rewrite (bytes_array_app bo I) in Hcl
    by (rewrite length_array_bytes, HlenA; reflexivity).
  rewrite (bytes_array_app bo k) in Hcl by exact Hmid.
  rewrite <- HlenA in Hcl at 1.
  rewrite (bytes_array_array_bytes bo (firstn I (clientlist w))) in Hcl
    by (apply Forall_firstn, Hints).
  rewrite (bytes_array_array_bytes bo (skipn (I + k) (clientlist w))) in Hcl
    by (apply Forall_skipn, Hints).
  conjuncts.
  - unfold close_client. cbn [clientlist_use log].
    apply wrap32_small. change (2 ^ 32) with 4294967296 in *. lia.
  - reflexivity.
  - unfold close_client. cbn [clientlist log]. apply length_bytes_array.
  - rewrite Hcl. apply firstn_exact, HlenA.
  - rewrite Hcl. rewrite (skipn_past _ _ I k HlenA).
    apply skipn_exact, length_bytes_array.
Qed.

Lemma close_client_touches_a_quarter_witness :
  let w' := close_client BigEndian 0 six_peers in
  clientlist_use w' = 5
  /\ trace w' = [Close 3]
  /\ length (clientlist w') = 8%nat
  /\ firstn 0 (clientlist w') = []
  /\ skipn 2 (clientlist w') = [5; 6; 7; 8; 0; 0].
Proof.
  apply (close_client_touches_a_quarter BigEndian 0 six_peers).
  - change (clientlist six_peers) with [3; 4; 5; 6; 7; 8; 0; 0].
    repeat (apply Forall_cons; [unfold int_range; simpl; lia |]).
    apply Forall_nil.
  - simpl. lia.
  - simpl. lia.
  - reflexivity.
Defined.

(** The array after [close_client i], little-endian, one-byte descriptors. *)
Lemma close_client_array_small :
  forall i w,
    Forall small (clientlist w) ->
    0 <= i < clientlist_use w ->
    clientlist_use w <= Z.of_nat (length (clientlist w)) ->
    clientlist_use w < 2 ^ 32 ->
    let I := Z.to_nat i in
    let k := quarters (Z.to_nat (clientlist_use w - 1 - i)) in
    clientlist (close_client LittleEndian i w)
    = firstn I (clientlist w)
      ++ firstn k (skipn (S I) (clientlist w))
      ++ skipn (I + k) (clientlist w).
Proof.
  intros i w Hsmall Hi Hlen Hmax I k.
  assert (Hcl := close_client_array LittleEndian i w Hi Hlen Hmax).
  cbv zeta in Hcl. fold I in Hcl.
  set (n := Z.to_nat (clientlist_use w - 1 - i)) in *.
  set (rest := skipn (S I) (clientlist w)) in *.
  assert (Hn : (n <= length rest)%nat)
    by (unfold rest; rewrite length_skipn; lia).
  assert (Hx : small (client_at w i)).
  { unfold client_at. fold I.
    assert (Hin : In (nth I (clientlist w) 0) (clientlist w))
      by (apply nth_In; lia).
    revert Hin. apply Forall_forall, Hsmall. }
  rewrite (overlay_small_little_endian n (client_at w i) rest Hn Hx)
    in Hcl by (apply Forall_skipn, Hsmall).
  fold k in Hcl.
  assert (Hk : (k <= n)%nat) by apply quarters_le.
  assert (Htail : skipn k (client_at w i :: rest) = skipn (I + k) (clientlist w)).
  { unfold rest, client_at. fold I.
    rewrite <- (skipn_nth_cons (clientlist w) I) by lia.
    rewrite skipn_skipn. f_equal. lia. }
  rewrite Htail, <- array_bytes_app in Hcl.
  rewrite Hcl.
  set (new := firstn I (clientlist w) ++ firstn k rest ++ skipn (I + k) (clientlist w)).
  assert (Hnew : length new = length (clientlist w)).
  { unfold new. rewrite !length_app, !length_firstn, length_skipn.
    unfold rest. rewrite length_skipn. lia. }
  rewrite <- Hnew. apply bytes_array_array_bytes.
  unfold new. apply Forall_app; split; [| apply Forall_app; split].
  - apply Forall_firstn. eapply Forall_impl; [apply small_int_range | exact Hsmall].
  - apply Forall_firstn, Forall_skipn.
    eapply Forall_impl; [apply small_int_range | exact Hsmall].
  - apply Forall_skipn.
    eapply Forall_impl; [apply small_int_range | exact Hsmall].
Qed.

(** The same on a little-endian machine while the descriptors fit one
    byte: the array after [close_client i] is the old one with the first
    [quarters n] of the [n] registered entries above [i] moved down by one
    place, and every other entry where it was. *)
Theorem close_client_moves_a_quarter :
  forall i w,
    Forall small (clientlist w) ->
    0 <= i < clientlist_use w ->
    clientlist_use w <= Z.of_nat (length (clientlist w)) ->
    clientlist_use w < 2 ^ 32 ->
    let I := Z.to_nat i in
    let k := quarters (Z.to_nat (clientlist_use w - 1 - i)) in
    clientlist (close_client LittleEndian i w)
    = firstn I (clientlist w)
      ++ firstn k (skipn (S I) (clientlist w))
      ++ skipn (I + k) (clientlist w).
Proof. exact close_client_array_small. Qed.

Lemma close_client_moves_a_quarter_witness :
  clientlist (close_client LittleEndian 0 six_peers)
  = [4; 5; 5; 6; 7; 8; 0; 0].
Proof.
  apply (close_client_moves_a_quarter 0 six_peers).
  - change (clientlist six_peers) with [3; 4; 5; 6; 7; 8; 0; 0].
    repeat (apply Forall_cons; [unfold small; lia |]).
    apply Forall_nil.
  - simpl. lia.
  - simpl. lia.
  - reflexivity.
Defined.

(** So, on a little-endian machine with one-byte descriptors, all
    distinct: [close_client i] leaves the spec's [removeAt] exactly when at
    most one registered peer is above index [i].  With two or more above,
    the registry it leaves is wrong. *)
Theorem close_client_right_iff_at_most_one_above :
  forall i w,
    Forall small (clientlist w) ->
    0 <= i < clientlist_use w ->
    clientlist_use w <= Z.of_nat (length (clientlist w)) ->
    clientlist_use w < 2 ^ 32 ->
    NoDup (registry w) ->
    registry (close_client LittleEndian i w)
    = remove_at (Z.to_nat i) (registry w)
    <-> clientlist_use w - 1 - i <= 1.
Proof.
  intros i w Hsmall Hi Hlen Hmax Hnd.
  pose proof (close_client_array_small i w Hsmall Hi Hlen Hmax) as Hcl.
  cbv zeta in Hcl.
  set (I := Z.to_nat i) in *.
  set (n := Z.to_nat (clientlist_use w - 1 - i)) in *.
  set (k := quarters n) in *.
  set (cl := clientlist w) in *.
  set (rest := skipn (S I) cl) in *.
  assert (Hrest : (n <= length rest)%nat)
    by (unfold rest; rewrite length_skipn; fold cl in Hlen; lia).
  assert (HlenA : length (firstn I cl) = I)
    by (rewrite length_firstn; fold cl in Hlen; lia).
  assert (Huse' : clientlist_use (close_client LittleEndian i w)
                  = clientlist_use w - 1).
  { unfold close_client. cbn [clientlist_use log]. apply wrap32_small.
    change (2 ^ 32) with 4294967296 in *. lia. }
  assert (Hleft : registry (close_client LittleEndian i w)
                  = firstn I cl
                    ++ firstn n (firstn k rest ++ skipn (I + k) cl)).
  { unfold registry. rewrite Huse', Hcl.
    replace (Z.to_nat (clientlist_use w - 1)) with (I + n)%nat by lia.
    apply (firstn_past _ _ I n HlenA). }
  assert (Hright : remove_at I (registry w) = firstn I cl ++ firstn n rest).
  { unfold remove_at, registry. fold cl.
    rewrite firstn_firstn, skipn_firstn_comm.
    replace (Init.Nat.min I (Z.to_nat (clientlist_use w))) with I by lia.
    replace (Z.to_nat (clientlist_use w) - S I)%nat with n by lia.
    reflexivity. }
  rewrite Hleft, Hright.
  pose proof (quarters_bounds n) as Hk. fold k in Hk.
  split.
  - (* two or more above: entry [I + k] is still there, a place too low *)
    intros Heq. apply app_inv_head in Heq.
    destruct (Z.leb_spec (clientlist_use w - 1 - i) 1) as [| Hmany];
      [assumption | exfalso].
    assert (Hkn : (k < n)%nat) by lia.
    apply (f_equal (fun l => nth k l 0)) in Heq.
    rewrite !nth_firstn in Heq.
    destruct (Nat.ltb_spec k n); [| lia].
    rewrite app_nth2 in Heq by (rewrite length_firstn; lia).
    rewrite length_firstn in Heq.
    replace (k - Init.Nat.min k (length rest))%nat with 0%nat in Heq by lia.
    unfold rest in Heq. rewrite !nth_skipn in Heq.
    replace (I + k + 0)%nat with (I + k)%nat in Heq by lia.
    assert (Hreg : forall a, (a < Z.to_nat (clientlist_use w))%nat ->
                             nth a (registry w) 0 = nth a cl 0).
    { intros a Ha. unfold registry. fold cl. rewrite nth_firstn.
      destruct (Nat.ltb_spec a (Z.to_nat (clientlist_use w))); [reflexivity | lia]. }
    assert (Hlenreg : length (registry w) = Z.to_nat (clientlist_use w)).
    { unfold registry. rewrite length_firstn. fold cl in Hlen |- *. lia. }
    rewrite <- (Hreg (I + k)%nat) in Heq by lia.
    rewrite <- (Hreg (S I + k)%nat) in Heq by lia.
    apply (proj1 (NoDup_nth (registry w) 0) Hnd) in Heq; lia.
  - (* nobody or one peer above *)
    intros Hfew. f_equal.
    assert (Hn01 : (n = 0 \/ n = 1)%nat) by lia.
    clearbody rest k n. destruct Hn01 as [-> | ->]; [reflexivity |].
    assert (k = 1)%nat as -> by lia.
    destruct rest as [| a rest']; [simpl in Hrest; lia | reflexivity].
Qed.

Lemma close_client_right_iff_at_most_one_above_witness :
  registry (close_client LittleEndian 0 six_peers)
  = remove_at 0 (registry six_peers)
  <-> clientlist_use six_peers - 1 - 0 <= 1.
Proof.
  apply (close_client_right_iff_at_most_one_above 0 six_peers).
  - change (clientlist six_peers) with [3; 4; 5; 6; 7; 8; 0; 0].
    repeat (apply Forall_cons; [unfold small; lia |]).
    apply Forall_nil.
  - simpl. lia.
  - simpl. lia.
  - reflexivity.
  - change (registry six_peers) with [3; 4; 5; 6; 7; 8].
    repeat (apply NoDup_cons; [simpl; lia |]). apply NoDup_nil.
Defined.

(** ** More on draining *)

(** As long as the peers are silent the drain steps from one to the next,
    reading each once; the answers that are left go to the peers after. *)
Lemma recv_loop_quiet_prefix bo qs : forall more i w,
  0 <= i ->
  i + Z.of_nat (length qs) <= clientlist_use w ->
  clientlist_use w <= Z.of_nat (length (clientlist w)) ->
  clientlist_use w < 2 ^ 32 ->
  Forall quiet qs ->
  recv_loop bo (qs ++ more) i w
  = recv_loop bo more (i + Z.of_nat (length qs))
      (mkWorld (clientlist w) (clientlist_use w)
               (trace w ++ reads_in_order w i qs)).
Proof.
  induction qs as [| rd qs IH]; intros more i w Hi Hfit Hlen Hmax Hq.
  - cbn [app length Z.of_nat]. rewrite Z.add_0_r.
    unfold reads_in_order. rewrite combine_nil. cbn [map].
    rewrite app_nil_r. destruct w; reflexivity.
  - inversion Hq as [| ? ? [Hneg Hwb] Hrest]; subst.
    cbn [length] in Hfit. cbn [app recv_loop].
    destruct (Z.ltb_spec i (clientlist_use w)); [| lia].
    destruct (Z.ltb_spec (io_n rd) 0); [| lia]. rewrite Hwb.
    rewrite wrap32_small by (change (2 ^ 32) with 4294967296 in *; lia).
    rewrite IH; try assumption; cbn [clientlist clientlist_use log];
      try lia.
    f_equal; [cbn [length]; lia |].
    f_equal. cbn [trace log]. unfold reads_in_order.
    change (peers_from (log (Read (client_at w i) (io_n rd)) w) (i + 1))
      with (peers_from w (i + 1)).
    rewrite (peers_from_cons w i) by lia.
    cbn [combine map fst snd]. rewrite <- app_assoc. reflexivity.
Qed.

(** A peer is removed by the drain only when a read on it returns 0 or a
    hard error: while every read brings data or would block, the registry
    stays as it is and no descriptor is closed. *)
Theorem drain_keeps_live_peers :
  forall bo reads w w',
    Forall (fun rd => talkative rd \/ quiet rd) reads ->
    recv_and_discard bo reads w = Some w' ->
    same_registry w w'
    /\ forall fd, closes fd (trace w') = closes fd (trace w).
Proof.
  intros bo reads w w' Hall. unfold recv_and_discard. generalize 0 as i.
  revert w w' Hall.
  induction reads as [| rd reads IH]; intros w w' Hall i Hrun;
    cbn [recv_loop] in Hrun;
    destruct (i <? clientlist_use w);
    try discriminate;
    try (injection Hrun as <-; split; [apply same_registry_refl | reflexivity]).
  inversion Hall as [| ? ? Hrd Hrest]; subst.
  set (v := log (Read (client_at w i) (io_n rd)) w) in *.
  assert (Hv : same_registry w v /\ forall fd, closes fd (trace v) = closes fd (trace w)).
  { split; [apply same_registry_log |].
    intros fd. unfold v. rewrite closes_log. cbn [is_close]. lia. }
  assert (Hgo : forall j, recv_loop bo reads j v = Some w' ->
                          same_registry w w'
                          /\ forall fd, closes fd (trace w') = closes fd (trace w)).
  { intros j Hj. destruct (IH v w' Hrest j Hj) as [Hs Hc].
    destruct Hv as [Hs0 Hc0]. split.
    - exact (same_registry_trans w v w' Hs0 Hs).
    - intros fd. rewrite Hc. apply Hc0. }
  destruct Hrd as [Htalk | [Hneg Hwb]].
  - unfold talkative in Htalk.
    destruct (Z.ltb_spec (io_n rd) 0); [lia |].
    destruct (Z.eqb_spec (io_n rd) 0); [lia |].
    eapply Hgo, Hrun.
  - destruct (Z.ltb_spec (io_n rd) 0); [| lia]. rewrite Hwb in Hrun.
    eapply Hgo, Hrun.
Qed.

Lemma drain_keeps_live_peers_witness :
  same_registry three_peers
    (mkWorld (clientlist three_peers) 3
             (trace three_peers
              ++ [Read 3 200; Read 3 (-1); Read 4 (-1); Read 5 (-1)]))
  /\ forall fd,
       closes fd
         (trace
            (mkWorld (clientlist three_peers) 3
               (trace three_peers
                ++ [Read 3 200; Read 3 (-1); Read 4 (-1); Read 5 (-1)])))
       = closes fd (trace three_peers).
Proof.
  apply (drain_keeps_live_peers LittleEndian
           [mkIo 200 0; mkIo (-1) EAGAIN; mkIo (-1) EAGAIN; mkIo (-1) EAGAIN]
           three_peers).
  - repeat (apply Forall_cons;
            [first [left; unfold talkative; simpl; lia
                   | right; split; [simpl; lia | reflexivity]] |]).
    apply Forall_nil.
  - vm_compute. reflexivity.
Defined.

(** With a peer registered at the index the loop stands at, no run of
    reads that all bring data is enough for the loop to finish. *)
Lemma recv_loop_talkative bo ps : forall i w,
  i < clientlist_use w ->
  Forall talkative ps ->
  recv_loop bo ps i w = None.
Proof.
  induction ps as [| rd ps IH]; intros i w Hi Hall; cbn [recv_loop];
    destruct (Z.ltb_spec i (clientlist_use w)); try lia; [reflexivity |].
  inversion Hall as [| ? ? Hrd Hrest]; subst. unfold talkative in Hrd.
  destruct (Z.ltb_spec (io_n rd) 0); [lia |].
  destruct (Z.eqb_spec (io_n rd) 0); [lia |].
  apply IH; [exact Hi | exact Hrest].
Qed.

(** The drain does not return while a peer keeps sending: once the silent
    peers before it have been passed, however many reads bring data, the
    loop reads that same peer again and asks for one more answer.  A client
    that never stops sending keeps the program away from the USB stream. *)
Theorem drain_waits_for_a_talkative_peer :
  forall bo qs ps w,
    clientlist_use w <= Z.of_nat (length (clientlist w)) ->
    clientlist_use w < 2 ^ 32 ->
    Forall quiet qs ->
    Z.of_nat (length qs) < clientlist_use w ->
    Forall talkative ps ->
    recv_and_discard bo (qs ++ ps) w = None.
Proof.
  intros bo qs ps w Hlen Hmax Hq Hfit Hp. unfold recv_and_discard.
  rewrite recv_loop_quiet_prefix; try assumption; try lia.
  apply recv_loop_talkative; [cbn [clientlist_use]; lia | exact Hp].
Qed.

Lemma drain_waits_for_a_talkative_peer_witness :
  recv_and_discard LittleEndian
    ([mkIo (-1) EAGAIN] ++ [mkIo 256 0; mkIo 256 0; mkIo 17 0]) three_peers
  = None.
Proof.
  apply (drain_waits_for_a_talkative_peer LittleEndian
           [mkIo (-1) EAGAIN] [mkIo 256 0; mkIo 256 0; mkIo 17 0] three_peers).
  - vm_compute. discriminate.
  - reflexivity.
  - apply Forall_cons; [split; [simpl; lia | reflexivity] | apply Forall_nil].
  - reflexivity.
  - repeat (apply Forall_cons; [unfold talkative; simpl; lia |]).
    apply Forall_nil.
Defined.

(** Removing the last registered peer leaves the array as it is. *)
Lemma close_client_last bo w :
  Forall int_range (clientlist w) ->
  1 <= clientlist_use w <= Z.of_nat (length (clientlist w)) ->
  clientlist_use w < 2 ^ 32 ->
  close_client bo (clientlist_use w - 1) w
  = mkWorld (clientlist w) (clientlist_use w - 1)
            (trace w ++ [Close (client_at w (clientlist_use w - 1))]).
Proof.
  intros Hints Huse Hmax. unfold close_client.
  cbn [clientlist clientlist_use trace log].
  rewrite (wrap32_small (clientlist_use w - 1))
    by (change (2 ^ 32) with 4294967296 in *; lia).
  rewrite Z.sub_diag. change (wrap32 0) with 0. change (Z.to_nat 0) with 0%nat.
  unfold memmove. cbn [firstn app]. rewrite Nat.add_0_r, firstn_skipn.
  rewrite (bytes_array_array_bytes bo _ Hints). reflexivity.
Qed.

(** When the peer at the end of the registry has closed its socket (or
    its read fails) and the peers before it are silent, one drain reads
    every peer once, closes that last handle once and takes it off the
    registry; the others stay, in their order. *)
Theorem drain_removes_the_last_peer :
  forall bo qs rd more w,
    Forall int_range (clientlist w) ->
    1 <= clientlist_use w <= Z.of_nat (length (clientlist w)) ->
    clientlist_use w < 2 ^ 32 ->
    Forall quiet qs ->
    Z.of_nat (length qs) = clientlist_use w - 1 ->
    fatal_io rd ->
    let last := client_at w (clientlist_use w - 1) in
    recv_and_discard bo (qs ++ rd :: more) w
    = Some (mkWorld (clientlist w) (clientlist_use w - 1)
                    (trace w ++ reads_in_order w 0 qs
                     ++ [Read last (io_n rd); Close last])).
Proof.
  intros bo qs rd more w Hints Huse Hmax Hq Hqs Hrd last.
  unfold recv_and_discard.
  rewrite recv_loop_quiet_prefix; try assumption; try lia.
  rewrite Z.add_0_l, Hqs.
  set (v := mkWorld (clientlist w) (clientlist_use w)
                    (trace w ++ reads_in_order w 0 qs)).
  cbn [recv_loop].
  change (clientlist_use v) with (clientlist_use w).
  destruct (Z.ltb_spec (clientlist_use w - 1) (clientlist_use w)); [| lia].
  change (client_at v (clientlist_use w - 1)) with last.
  set (v1 := log (Read last (io_n rd)) v).
  assert (Hclose : close_client bo (clientlist_use w - 1) v1
                   = mkWorld (clientlist w) (clientlist_use w - 1)
                       (trace w ++ reads_in_order w 0 qs
                        ++ [Read last (io_n rd); Close last])).
  { change (clientlist_use w - 1) with (clientlist_use v1 - 1) at 1.
    rewrite close_client_last; try assumption.
    cbn [clientlist clientlist_use trace log v1 v].
    rewrite <- !app_assoc. reflexivity. }
  assert (Hdone : forall reads,
            recv_loop bo reads (clientlist_use w - 1)
              (close_client bo (clientlist_use w - 1) v1)
            = Some (close_client bo (clientlist_use w - 1) v1)).
  { intros reads. rewrite Hclose. destruct reads; cbn [recv_loop clientlist_use];
      (destruct (Z.ltb_spec (clientlist_use w - 1) (clientlist_use w - 1));
       [lia | reflexivity]). }
  destruct Hrd as [Hzero | [Hneg Hhard]].
  - destruct (Z.ltb_spec (io_n rd) 0); [lia |].
    destruct (Z.eqb_spec (io_n rd) 0); [| lia].
    rewrite Hdone. f_equal. exact Hclose.
  - destruct (Z.ltb_spec (io_n rd) 0); [| lia]. rewrite Hhard.
    rewrite Hdone. f_equal. exact Hclose.
Qed.

Lemma drain_removes_the_last_peer_witness :
  recv_and_discard LittleEndian
    ([mkIo (-1) EAGAIN; mkIo (-1) EAGAIN] ++ mkIo 0 0 :: []) small_registry
  = Some (mkWorld [3; 4; 5; 0] 2
                  [Read 3 (-1); Read 4 (-1); Read 5 0; Close 5]).
Proof.
  apply (drain_removes_the_last_peer LittleEndian
           [mkIo (-1) EAGAIN; mkIo (-1) EAGAIN] (mkIo 0 0) [] small_registry).
  - change (clientlist small_registry) with [3; 4; 5; 0].
    repeat (apply Forall_cons; [unfold int_range; simpl; lia |]).
    apply Forall_nil.
  - simpl. lia.
  - reflexivity.
  - repeat (apply Forall_cons; [split; [simpl; lia | reflexivity] |]).
    apply Forall_nil.
  - reflexivity.
  - left. reflexivity.
Defined.

(** ** More on broadcasting *)

Lemma send_loop_full bo buflen fs : forall more i w,
  0 < buflen ->
  0 <= i ->
  i + Z.of_nat (length fs) <= clientlist_use w ->
  clientlist_use w <= Z.of_nat (length (clientlist w)) ->
  clientlist_use w < 2 ^ 32 ->
  Forall (takes_all buflen) fs ->
  send_loop bo (fs ++ more) buflen 0 i w
  = send_loop bo more buflen 0 (i + Z.of_nat (length fs))
      (mkWorld (clientlist w) (clientlist_use w)
               (trace w
                ++ map (fun fd => Write fd 0 buflen buflen)
                       (firstn (length fs) (peers_from w i)))).
Proof.
  induction fs as [| wr fs IH]; intros more i w Hpos Hi Hfit Hlen Hmax Hall.
  - cbn [app length Z.of_nat firstn map]. rewrite Z.add_0_r, app_nil_r.
    destruct w; reflexivity.
  - inversion Hall as [| ? ? Hwr Hrest]; subst. unfold takes_all in Hwr.
    cbn [length] in Hfit. cbn [app send_loop].
    destruct (Z.ltb_spec i (clientlist_use w)); [| lia].
    rewrite Hwr, Z.sub_0_r.
    destruct (Z.ltb_spec buflen 0); [lia |].
    destruct (Z.ltb_spec 0 buflen); [| lia].
    rewrite Z.add_0_l. rewrite Z.ltb_irrefl.
    rewrite wrap32_small by (change (2 ^ 32) with 4294967296 in *; lia).
    rewrite IH; try assumption; cbn [clientlist clientlist_use log];
      try lia.
    f_equal; [cbn [length]; lia |].
    f_equal. cbn [trace log].
    change (peers_from (log (Write (client_at w i) 0 buflen buflen) w) (i + 1))
      with (peers_from w (i + 1)).
    rewrite (peers_from_cons w i) by lia.
    cbn [length firstn map]. rewrite <- app_assoc. reflexivity.
Qed.

(** When every client keeps up, each registered peer is written the whole
    frame in a single [write], once, in registry order; no other call is
    made and the registry stays as it is. *)
Theorem broadcast_reaches_every_peer :
  forall bo buflen fs more w,
    0 < buflen ->
    0 <= clientlist_use w <= Z.of_nat (length (clientlist w)) ->
    clientlist_use w < 2 ^ 32 ->
    Z.of_nat (length fs) = clientlist_use w ->
    Forall (takes_all buflen) fs ->
    send_to_socket bo (fs ++ more) buflen w
    = Some (mkWorld (clientlist w) (clientlist_use w)
                    (trace w
                     ++ map (fun fd => Write fd 0 buflen buflen)
                            (registry w))).
Proof.
  intros bo buflen fs more w Hpos Huse Hmax Hfs Hall. unfold send_to_socket.
  rewrite send_loop_full; try assumption; try lia.
  rewrite Z.add_0_l, Hfs.
  assert (Hreg : firstn (length fs) (peers_from w 0) = registry w).
  { unfold peers_from. cbn [Z.to_nat skipn]. apply firstn_all2.
    unfold registry. rewrite length_firstn. lia. }
  rewrite Hreg.
  destruct more; cbn [send_loop clientlist_use];
    rewrite Z.ltb_irrefl; reflexivity.
Qed.

Lemma broadcast_reaches_every_peer_witness :
  send_to_socket LittleEndian
    ([mkIo 100 0; mkIo 100 0; mkIo 100 0] ++ []) 100 small_registry
  = Some (mkWorld [3; 4; 5; 0] 3
                  [Write 3 0 100 100; Write 4 0 100 100; Write 5 0 100 100]).
Proof.
  apply (broadcast_reaches_every_peer LittleEndian 100
           [mkIo 100 0; mkIo 100 0; mkIo 100 0] [] small_registry).
  - lia.
  - simpl. lia.
  - reflexivity.
  - reflexivity.
  - repeat (apply Forall_cons; [reflexivity |]). apply Forall_nil.
Defined.

Lemma send_loop_returns bo writes : forall buflen ofs i w,
  0 <= ofs -> 0 <= i ->
  0 <= clientlist_use w < 2 ^ 32 ->
  writes_needed buflen ofs i (clientlist_use w) <= Z.of_nat (length writes) ->
  exists w', send_loop bo writes buflen ofs i w = Some w'.
Proof.
  change (2 ^ 32) with 4294967296.
  induction writes as [| wr writes IH]; intros buflen ofs i w Hofs Hi Huse Hn;
    unfold writes_needed in Hn; cbn [send_loop];
    destruct (Z.ltb_spec i (clientlist_use w)) as [Hlt | Hge];
    try (eexists; reflexivity).
  - cbn [length Z.of_nat] in Hn. nia.
  - set (v := log (Write (client_at w i) ofs (buflen - ofs) (io_n wr)) w).
    assert (Hlen : Z.of_nat (length (wr :: writes))
                   = Z.of_nat (length writes) + 1)
      by (cbn [length]; lia).
    rewrite Hlen in Hn.
    assert (Hnext : wrap32 (i + 1) = i + 1)
      by (apply wrap32_small; change (2 ^ 32) with 4294967296; lia).
    assert (Hmove : exists w', send_loop bo writes buflen 0 (i + 1) v = Some w').
    { apply IH; try lia; cbn [clientlist_use log v]; try lia.
      unfold writes_needed.
      destruct (Z.ltb_spec (i + 1) (clientlist_use w)); nia. }
    destruct (Z.ltb_spec (io_n wr) 0).
    + destruct (negb (would_block (io_errno wr))).
      * (* hard error: the peer leaves, one peer fewer to serve *)
        assert (Hu : clientlist_use (close_client bo i v) = clientlist_use w - 1).
        { unfold close_client. cbn [clientlist_use log v].
          apply wrap32_small. change (2 ^ 32) with 4294967296. lia. }
        apply IH; try lia; rewrite Hu; try lia.
        unfold writes_needed.
        destruct (Z.ltb_spec i (clientlist_use w - 1)); nia.
      * rewrite Hnext. exact Hmove.
    + destruct (Z.ltb_spec 0 (io_n wr)); [| rewrite Hnext; exact Hmove].
      destruct (Z.ltb_spec (ofs + io_n wr) buflen);
        [| rewrite Hnext; exact Hmove].
      (* partial write: same peer, fewer bytes left *)
      apply IH; try lia; cbn [clientlist_use log v]; try lia.
      unfold writes_needed.
      destruct (Z.ltb_spec i (clientlist_use w)); nia.
Qed.

(** A broadcast cannot be stalled by its clients: whatever the sockets
    answer (partial writes, would-block, errors), [send_to_socket] returns
    after at most [clientlist_use * max(1, buflen)] calls of [write]. *)
Theorem broadcast_always_returns :
  forall bo writes buflen w,
    0 <= clientlist_use w < 2 ^ 32 ->
    clientlist_use w * Z.max 1 buflen <= Z.of_nat (length writes) ->
    exists w', send_to_socket bo writes buflen w = Some w'.
Proof.
  intros bo writes buflen w Huse Hn. unfold send_to_socket.
  apply send_loop_returns; try lia. unfold writes_needed.
  destruct (Z.ltb_spec 0 (clientlist_use w)); nia.
Qed.

Lemma broadcast_always_returns_witness :
  exists w',
    send_to_socket LittleEndian
      [mkIo 1 0; mkIo (-1) EPIPE; mkIo (-1) EAGAIN; mkIo 2 0; mkIo 0 0;
       mkIo 1 0] 2 small_registry
    = Some w'.
Proof.
  apply (broadcast_always_returns LittleEndian
           [mkIo 1 0; mkIo (-1) EPIPE; mkIo (-1) EAGAIN; mkIo 2 0; mkIo 0 0;
            mkIo 1 0] 2 small_registry).
  - simpl. lia.
  - simpl. lia.
Defined.

(** ** Resolving the interface and its endpoints *)

Lemma scan_endpoints_from eps : forall fi fo,
  Forall valid_address eps ->
  scan_endpoints eps fi fo
  = (if fi =? -1 then first_in_address eps else fi,
     if fo =? -1 then first_out_address eps else fo).
Proof.
  induction eps as [| dep eps IH]; intros fi fo Hall.
  - cbn [scan_endpoints]. unfold first_in_address, first_out_address.
    cbn [find].
    destruct (Z.eqb_spec fi (-1)) as [-> |], (Z.eqb_spec fo (-1)) as [-> |];
      reflexivity.
  - inversion Hall as [| ? ? Hdep Hrest]; subst. unfold valid_address in Hdep.
    cbn [scan_endpoints]. rewrite (IH _ _ Hrest).
    unfold first_in_address, first_out_address, is_in_endpoint,
      is_out_endpoint. cbn [find].
    destruct (Z.land (bEndpointAddress dep) LIBUSB_ENDPOINT_IN =? 0);
      cbn [negb andb];
      destruct (Z.eqb_spec fi (-1)) as [-> |],
               (Z.eqb_spec fo (-1)) as [-> |];
      cbn [Z.eqb]; try reflexivity;
      repeat match goal with
             | |- context [bEndpointAddress dep =? -1] =>
                 destruct (Z.eqb_spec (bEndpointAddress dep) (-1)); [lia |]
             | |- context [?a =? -1] =>
                 destruct (Z.eqb_spec a (-1)); [congruence |]
             end;
      reflexivity.
Qed.

(** Of the endpoints of an alternate setting, the first IN one and the
    first OUT one are taken, in the order of the descriptor; -1 stands for
    a direction that has no endpoint. *)
Theorem scan_endpoints_takes_the_first :
  forall eps,
    Forall valid_address eps ->
    scan_endpoints eps (-1) (-1)
    = (first_in_address eps, first_out_address eps).
Proof. intros eps Hall. rewrite (scan_endpoints_from eps _ _ Hall). reflexivity. Qed.

Lemma scan_endpoints_takes_the_first_witness :
  scan_endpoints [mkEndpoint 0x03; mkEndpoint 0x84; mkEndpoint 0x85] (-1) (-1)
  = (0x84, 0x03).
Proof.
  apply (scan_endpoints_takes_the_first
           [mkEndpoint 0x03; mkEndpoint 0x84; mkEndpoint 0x85]).
  repeat (apply Forall_cons; [unfold valid_address; simpl; lia |]).
  apply Forall_nil.
Defined.

Lemma first_in_address_found eps :
  Forall valid_address eps ->
  existsb is_in_endpoint eps = true -> first_in_address eps <> -1.
Proof.
  unfold first_in_address.
  induction eps as [| dep eps IH]; intros Hall Hex; cbn [existsb find] in *.
  - discriminate.
  - inversion Hall as [| ? ? Hdep Hrest]; subst. unfold valid_address in Hdep.
    destruct (is_in_endpoint dep); [lia | apply IH; assumption].
Qed.

Lemma first_out_address_found eps :
  Forall valid_address eps ->
  existsb is_out_endpoint eps = true -> first_out_address eps <> -1.
Proof.
  unfold first_out_address.
  induction eps as [| dep eps IH]; intros Hall Hex; cbn [existsb find] in *.
  - discriminate.
  - inversion Hall as [| ? ? Hdep Hrest]; subst. unfold valid_address in Hdep.
    destruct (is_out_endpoint dep); [lia | apply IH; assumption].
Qed.

Lemma scan_interfaces_app l1 : forall l2 i s w,
  scan_interfaces (l1 ++ l2) i s w
  = scan_interfaces l2 (i + Z.of_nat (length l1))
      (fst (scan_interfaces l1 i s w)) (snd (scan_interfaces l1 i s w)).
Proof.
  induction l1 as [| iface l1 IH]; intros l2 i s w.
  - cbn [app length Z.of_nat scan_interfaces fst snd]. rewrite Z.add_0_r.
    reflexivity.
  - cbn [app scan_interfaces].
    destruct (scan_altsettings (altsetting iface) i _ 0 s _) as [s1 w1].
    rewrite IH. f_equal. cbn [length]. lia.
Qed.

(** An interface whose alternate setting 0 is a usable 0xFF/0x43 one is
    resolved to its own number and the first IN and OUT endpoints of that
    setting. *)
Lemma scan_altsettings_usable alt alts i nalt s w :
  usable_ff43 alt = true ->
  Forall valid_address (endpoint alt) ->
  fst (scan_altsettings (alt :: alts) i nalt 0 s w)
  = mkResolved i (first_in_address (endpoint alt))
               (first_out_address (endpoint alt)).
Proof.
  intros Huse Hvalid. unfold usable_ff43 in Huse.
  apply andb_prop in Huse as [Huse Hout].
  apply andb_prop in Huse as [Hcls Hin].
  cbn [scan_altsettings].
  rewrite (scan_endpoints_from _ (-1) (-1) Hvalid).
  change (-1 =? -1) with true. cbv iota.
  change (0 =? 0) with true. cbn [andb].
  change 255 with 0xff in *. change 67 with 0x43 in *. rewrite Hcls.
  pose proof (first_in_address_found _ Hvalid Hin) as Hfi.
  pose proof (first_out_address_found _ Hvalid Hout) as Hfo.
  destruct (Z.eqb_spec (first_in_address (endpoint alt)) (-1));
    [contradiction |].
  destruct (Z.eqb_spec (first_out_address (endpoint alt)) (-1));
    [contradiction |].
  cbn [negb andb]. apply scan_altsettings_later. lia.
Qed.

(** When several interfaces offer a usable 0xFF/0x43 alternate setting 0,
    the LAST of them in the configuration descriptor is the one resolved
    (and then claimed): the scan overwrites an earlier match with a later
    one.  Its number and the first IN and OUT endpoint addresses of its
    setting 0 are what [start_with_a_device] goes on with. *)
Theorem scan_interfaces_resolves_the_last_usable :
  forall pre iface post alt alts i s w,
    altsetting iface = alt :: alts ->
    usable_ff43 alt = true ->
    Forall valid_address (endpoint alt) ->
    exposes_ff43 (mkConfig post) = false ->
    fst (scan_interfaces (pre ++ iface :: post) i s w)
    = mkResolved (i + Z.of_nat (length pre))
                 (first_in_address (endpoint alt))
                 (first_out_address (endpoint alt)).
Proof.
  intros pre iface post alt alts i s w Halt Huse Hvalid Hpost.
  rewrite scan_interfaces_app. cbn [scan_interfaces]. rewrite Halt.
  match goal with
  | |- context [scan_altsettings (alt :: alts) ?j ?n 0 ?s0 ?v] =>
      pose proof (scan_altsettings_usable alt alts j n s0 v Huse Hvalid) as Hs;
      destruct (scan_altsettings (alt :: alts) j n 0 s0 v) as [s1 w1]
  end.
  cbn [fst] in Hs. subst s1.
  apply scan_interfaces_unusable. exact Hpost.
Qed.

Lemma scan_interfaces_resolves_the_last_usable_witness :
  fst (scan_interfaces two_vendor_interfaces 0 (mkResolved (-1) (-1) (-1))
         initial_world)
  = mkResolved 2 0x84 0x03.
Proof.
  apply (scan_interfaces_resolves_the_last_usable
           [mkInterface [mkAlt 0x03 0x00 [mkEndpoint 0x86]];
            mkInterface [mkAlt 0xff 0x43 [mkEndpoint 0x81; mkEndpoint 0x01]]]
           (mkInterface [mkAlt 0xff 0x43 [mkEndpoint 0x03; mkEndpoint 0x84;
                                          mkEndpoint 0x85]])
           []
           (mkAlt 0xff 0x43 [mkEndpoint 0x03; mkEndpoint 0x84; mkEndpoint 0x85])
           [] 0 (mkResolved (-1) (-1) (-1)) initial_world).
  - reflexivity.
  - reflexivity.
  - repeat (apply Forall_cons; [unfold valid_address; simpl; lia |]).
    apply Forall_nil.
  - reflexivity.
Defined.

(** ** Discovery over the device list *)

(** Devices that are not the goggles are passed over without a call. *)
Lemma try_devices_skips_wrong bo wrong : forall rest i cnt r0 w,
  Forall wrong_device wrong ->
  i + Z.of_nat (length wrong) <= cnt ->
  try_devices bo (wrong ++ rest) i cnt r0 w
  = try_devices bo rest (i + Z.of_nat (length wrong)) cnt
      (match wrong with [] => r0 | _ :: _ => VENDOR_ID_DJI end) w.
Proof.
  induction wrong as [| d wrong IH]; intros rest i cnt r0 w Hall Hfit.
  - cbn [app length Z.of_nat]. rewrite Z.add_0_r. reflexivity.
  - inversion Hall as [| ? ? Hd Hrest]; subst. cbn [length] in Hfit.
    cbn [app try_devices].
    destruct (Z.ltb_spec i cnt); [| lia].
    rewrite (start_with_a_wrong_device bo d w Hd).
    change (VENDOR_ID_DJI =? VENDOR_ID_DJI) with true. cbv iota.
    rewrite IH by (try assumption; lia).
    f_equal; [cbn [length]; lia |].
    destruct wrong; reflexivity.
Qed.

(** Discovery passes over every device that is not the goggles and stops
    at the first one that is: what [start_with_a_device] returns for it is
    the result of the scan, and the devices after it are not looked at. *)
Theorem discovery_stops_at_the_first_match :
  forall bo wrong d later cnt r0 w r w',
    Forall wrong_device wrong ->
    Z.of_nat (length wrong) < cnt ->
    start_with_a_device bo d w = Some (r, w') ->
    r <> VENDOR_ID_DJI ->
    try_devices bo (wrong ++ d :: later) 0 cnt r0 w = Some (r, w').
Proof.
  intros bo wrong d later cnt r0 w r w' Hall Hfit Hrun Hr.
  rewrite try_devices_skips_wrong by (try assumption; lia).
  cbn [try_devices]. rewrite Z.add_0_l.
  destruct (Z.ltb_spec (Z.of_nat (length wrong)) cnt); [| lia].
  rewrite Hrun. destruct (Z.eqb_spec r VENDOR_ID_DJI); [contradiction |].
  reflexivity.
Qed.

Lemma discovery_stops_at_the_first_match_witness :
  try_devices LittleEndian
    ([some_hub; some_hub] ++ goggles_without_ff43 :: [goggles_unplugged])
    0 4 0 initial_world
  = Some (LIBUSB_ERROR_INVALID_PARAM,
          log UsbClose
            (log (Printf (MsgClaimFailed LIBUSB_ERROR_INVALID_PARAM))
               (log (UsbClaimInterface (-1)) (log UsbOpen initial_world)))).
Proof.
  apply (discovery_stops_at_the_first_match LittleEndian
           [some_hub; some_hub] goggles_without_ff43 [goggles_unplugged]
           4 0 initial_world).
  - repeat (apply Forall_cons;
            [split; [reflexivity | left; discriminate] |]).
    apply Forall_nil.
  - simpl. lia.
  - reflexivity.
  - discriminate.
Defined.

(** ** The supervisor and a device that goes away *)

(** When the goggles cannot be opened, or go away during the handshake or
    the stream ([start_with_a_device] returns WAIT_FOR_HOTPLUG), the
    program does not end: the supervisor prints its prompt, sleeps 0.5 s
    and starts the next pass, with the registry as the streaming code left
    it. *)
Theorem device_gone_supervisor_retries :
  forall bo p passes wrong d later w w1 w2,
    recv_and_discard bo (ps_reads p) (accept_any_connection (ps_accept p) w)
    = Some w1 ->
    ps_devs p = wrong ++ d :: later ->
    Forall wrong_device wrong ->
    Z.of_nat (length wrong) < ps_cnt p ->
    start_with_a_device bo d w1 = Some (WAIT_FOR_HOTPLUG, w2) ->
    supervisor_loop bo (p :: passes) w
    = supervisor_loop bo passes
        (log (Usleep 500000)
           (log (Printf (MsgPleasePlugIn (clientlist_use w2))) w2)).
Proof.
  intros bo p passes wrong d later w w1 w2 Hdrain Hdevs Hall Hfit Hrun.
  cbn [supervisor_loop]. rewrite Hdrain, Hdevs.
  destruct (Z.leb_spec 0 (ps_cnt p)); [| lia].
  rewrite try_devices_skips_wrong by (try assumption; lia).
  cbn [try_devices]. rewrite Z.add_0_l.
  destruct (Z.ltb_spec (Z.of_nat (length wrong)) (ps_cnt p)); [| lia].
  rewrite Hrun. reflexivity.
Qed.

Lemma device_gone_supervisor_retries_witness :
  supervisor_loop LittleEndian
    [mkPass nothing_pending [] 2 [some_hub; goggles_unplugged]] initial_world
  = supervisor_loop LittleEndian []
      (log (Usleep 500000)
         (log (Printf (MsgPleasePlugIn 0))
            (log UsbClose
               (log (Printf MsgWaitNoDev)
                  (log (UsbBulkIn LIBUSB_ERROR_NO_DEVICE 0)
                     (log (Usleep 500000)
                        (log (Printf MsgVideoOff)
                           (log (UsbBulkIn LIBUSB_ERROR_TIMEOUT 0)
                              (log (UsbBulkOut 4)
                                 (log (UsbClaimInterface 0)
                                    (log UsbOpen initial_world))))))))))).
Proof.
  apply (device_gone_supervisor_retries LittleEndian
           (mkPass nothing_pending [] 2 [some_hub; goggles_unplugged]) []
           [some_hub] goggles_unplugged [] initial_world initial_world).
  - reflexivity.
  - reflexivity.
  - apply Forall_cons; [| apply Forall_nil].
    split; [reflexivity | left; discriminate].
  - simpl. lia.
  - reflexivity.
Defined.

Lemma supervisor_loop_exit bo passes : forall w r w',
  supervisor_loop bo passes w = Some (r, w') ->
  r <> WAIT_FOR_HOTPLUG /\ r <> VENDOR_ID_DJI /\ exists v, w' = log UsbExit v.
Proof.
  induction passes as [| p passes IH]; intros w r w' Hrun;
    cbn [supervisor_loop] in Hrun; [discriminate |].
  destruct (recv_and_discard bo (ps_reads p) _) as [v |]; [| discriminate].
  destruct (0 <=? ps_cnt p); [| eapply IH, Hrun].
  destruct (try_devices bo (ps_devs p) 0 (ps_cnt p) 0 v) as [[r1 v1] |];
    [| discriminate].
  destruct (supervise r1) eqn:Es.
  - injection Hrun as <- <-. unfold supervise in Es.
    destruct (Z.eqb_spec r1 0) as [-> |].
    + repeat split; try discriminate. eexists; reflexivity.
    + destruct (negb (r1 =? WAIT_FOR_HOTPLUG) && negb (r1 =? VENDOR_ID_DJI));
        discriminate.
  - injection Hrun as <- <-. unfold supervise in Es.
    destruct (r1 =? 0); [discriminate |].
    destruct (Z.eqb_spec r1 WAIT_FOR_HOTPLUG); [discriminate |].
    destruct (Z.eqb_spec r1 VENDOR_ID_DJI); [discriminate |].
    repeat split; try assumption. eexists; reflexivity.
  - eapply IH, Hrun.
Qed.

(** The two values the program uses inside as signals never leave it:
    whatever [start_usb2sock] returns, it is neither WAIT_FOR_HOTPLUG nor
    the wrong-device code VENDOR_ID_DJI.  And when the set-up succeeded,
    the last call before returning is [libusb_exit]. *)
Theorem exit_status_is_no_signal :
  forall bo su passes w r w',
    start_usb2sock bo su passes w = Some (r, w') ->
    r <> WAIT_FOR_HOTPLUG /\ r <> VENDOR_ID_DJI
    /\ (setup_succeeded su -> exists v, w' = log UsbExit v).
Proof.
  intros bo su passes w r w'. unfold start_usb2sock, setup_succeeded.
  destruct (Z.ltb_spec (su_init_context su) 0).
  - intros [= <- _]. unfold WAIT_FOR_HOTPLUG, VENDOR_ID_DJI.
    conjuncts; try lia; intros [Hinit _]; lia.
  - destruct (Z.ltb_spec (su_socket su) 0); cbn [orb].
    + intros [= <- _]. conjuncts; try discriminate; intros (_ & Hs & _); lia.
    + destruct (Z.eqb_spec (su_reuseaddr su) 0),
               (Z.eqb_spec (su_nosigpipe su) 0),
               (Z.eqb_spec (su_bind su) 0),
               (Z.eqb_spec (su_listen su) 0),
               (Z.eqb_spec (su_nonblock su) 0); cbn [negb orb];
        try (intros [= <- _]; conjuncts; try discriminate;
             intros (_ & _ & ? & ? & ? & ? & ?); contradiction).
      intros Hrun. apply supervisor_loop_exit in Hrun as (Ha & Hb & Hc).
      conjuncts; try assumption. intros _. exact Hc.
Qed.

Lemma exit_status_is_no_signal_witness :
  LIBUSB_ERROR_INVALID_PARAM <> WAIT_FOR_HOTPLUG
  /\ LIBUSB_ERROR_INVALID_PARAM <> VENDOR_ID_DJI
  /\ (setup_succeeded startup_ok ->
      exists v,
        log UsbExit
          (log UsbClose
             (log (Printf (MsgClaimFailed LIBUSB_ERROR_INVALID_PARAM))
                (log (UsbClaimInterface (-1)) (log UsbOpen initial_world))))
        = log UsbExit v).
Proof.
  apply (exit_status_is_no_signal LittleEndian startup_ok
           [mkPass nothing_pending [] 1 [goggles_without_ff43]] initial_world).
  reflexivity.
Defined.

(** Neither the streaming code nor discovery has a "return 0": whatever
    [start_with_a_device] returns is different from 0 (the comment of line
    262 holds), so a 0 seen by the supervisor is never a result of theirs. *)
Theorem start_with_a_device_never_returns_zero :
  forall bo d w r w',
    start_with_a_device bo d w = Some (r, w') -> r <> 0.
Proof. intros bo d w r w'. apply start_with_a_device_nonzero. Qed.

Lemma start_with_a_device_never_returns_zero_witness :
  WAIT_FOR_HOTPLUG <> 0.
Proof.
  apply (start_with_a_device_never_returns_zero LittleEndian goggles_unplugged
           initial_world WAIT_FOR_HOTPLUG
           (log UsbClose
              (log (Printf MsgWaitNoDev)
                 (log (UsbBulkIn LIBUSB_ERROR_NO_DEVICE 0)
                    (log (Usleep 500000)
                       (log (Printf MsgVideoOff)
                          (log (UsbBulkIn LIBUSB_ERROR_TIMEOUT 0)
                             (log (UsbBulkOut 4)
                                (log (UsbClaimInterface 0)
                                   (log UsbOpen initial_world)))))))))).
  reflexivity.
Defined.

(** ** A newcomer that leaves at once *)

Lemma firstn_store_below a : forall n v,
  firstn n (store a n v) = firstn n a.
Proof.
  induction a as [| x a IH]; intros n v; destruct n; cbn [store firstn];
    try reflexivity.
  rewrite IH. reflexivity.
Qed.

Lemma Forall_store (P : Z -> Prop) a : forall n v,
  Forall P a -> P v -> Forall P (store a n v).
Proof.
  induction a as [| x a IH]; intros n v Ha Hv; destruct n; cbn [store];
    try assumption; inversion Ha; subst; constructor; auto.
Qed.

(** What a registering [accept] leaves in the globals. *)
Lemma accept_registers a w :
  connection_arrived a ->
  clientlist_use w < Z.of_nat CLIENTLIST_LEN ->
  0 <= clientlist_use w ->
  clientlist (accept_any_connection a w)
  = store (clientlist w) (Z.to_nat (clientlist_use w)) (acc_fd a)
  /\ clientlist_use (accept_any_connection a w) = clientlist_use w + 1.
Proof.
  intros [Hfd Hsz] Hroom Huse. unfold accept_any_connection.
  destruct (Z.ltb_spec (acc_fd a) 0); [lia |]. rewrite Hsz. cbn [negb].
  assert (Hw : wrap32 (clientlist_use w + 1) = clientlist_use w + 1).
  { apply wrap32_small. change (2 ^ 32) with 4294967296.
    unfold CLIENTLIST_LEN in *. lia. }
  destruct (acc_ntop_ok a); cbn [clientlist_use log];
    (destruct (Z.leb_spec (Z.of_nat CLIENTLIST_LEN) (clientlist_use w));
     [lia |]);
    destruct (acc_fcntl a =? 0);
    cbn [clientlist clientlist_use log]; rewrite Hw; split; reflexivity.
Qed.

(** A client that connects and is removed before anyone else arrives
    leaves the registry exactly as it was: the newcomer sits at the end,
    where [close_client] is right on any machine. *)
Theorem accept_then_close_restores_registry :
  forall bo a w,
    registry_ok w ->
    Forall int_range (clientlist w) ->
    int_range (acc_fd a) ->
    connection_arrived a ->
    clientlist_use w < Z.of_nat CLIENTLIST_LEN ->
    let w' := close_client bo (clientlist_use w) (accept_any_connection a w) in
    registry w' = registry w
    /\ clientlist_use w' = clientlist_use w
    /\ closes (acc_fd a) (trace w')
       = S (closes (acc_fd a) (trace (accept_any_connection a w))).
Proof.
  intros bo a w [Hlen Huse] Hints Hfd Harr Hroom w'.
  destruct (accept_registers a w Harr Hroom ltac:(lia)) as [Hcl Hu].
  set (w1 := accept_any_connection a w) in *.
  assert (Hlast : clientlist_use w = clientlist_use w1 - 1) by lia.
  assert (Hat : client_at w1 (clientlist_use w1 - 1) = acc_fd a).
  { unfold client_at. rewrite Hcl, <- Hlast.
    assert (Hs : forall l n v, (n < length l)%nat -> nth n (store l n v) 0 = v).
    { induction l as [| x l IH]; intros n v Hn; simpl in Hn; [lia |].
      destruct n; cbn [store nth]; [reflexivity | apply IH; lia]. }
    apply Hs. unfold CLIENTLIST_LEN in *. lia. }
  subst w'. rewrite Hlast.
  rewrite close_client_last.
  - rewrite Hat. unfold registry. cbn [clientlist clientlist_use trace].
    rewrite Hcl, <- Hlast, firstn_store_below.
    conjuncts; try reflexivity.
    unfold closes. rewrite filter_app, length_app. cbn [filter is_close].
    rewrite Z.eqb_refl. cbn [length]. lia.
  - rewrite Hcl. apply Forall_store; assumption.
  - rewrite Hcl, length_store. unfold CLIENTLIST_LEN in *. lia.
  - change (2 ^ 32) with 4294967296. unfold CLIENTLIST_LEN in *. lia.
Qed.

Lemma accept_then_close_restores_registry_witness :
  let w' := close_client BigEndian (clientlist_use three_peers)
              (accept_any_connection (accepted 6) three_peers) in
  registry w' = registry three_peers
  /\ clientlist_use w' = clientlist_use three_peers
  /\ closes 6 (trace w')
     = S (closes 6 (trace (accept_any_connection (accepted 6) three_peers))).
Proof.
  apply (accept_then_close_restores_registry BigEndian (accepted 6) three_peers).
  - split; [reflexivity | vm_compute; split; discriminate].
  - change (clientlist three_peers) with (3 :: 4 :: 5 :: repeat 0 1021).
    do 3 (apply Forall_cons; [unfold int_range; simpl; lia |]).
    apply Forall_forall. intros v Hv. apply repeat_spec in Hv. subst v.
    unfold int_range. simpl. lia.
  - unfold int_range. simpl. lia.
  - split; [simpl; lia | reflexivity].
  - reflexivity.
Defined.

(** ** One frame through the whole loop *)

(** The data path end to end: in an iteration in which no client connects
    or speaks, the bulk read brings a frame of [len > 0] bytes and every
    client takes what it is given, each registered peer is read once and
    then written the whole frame once, in registry order; nobody is
    removed, and the loop goes on with the packet counter incremented. *)
Theorem frame_reaches_every_client :
  forall bo t ticks count len w,
    0 <= clientlist_use w <= Z.of_nat (length (clientlist w)) ->
    clientlist_use w < 2 ^ 32 ->
    no_connection (tk_accept t) ->
    Forall quiet (tk_reads t) ->
    Z.of_nat (length (tk_reads t)) = clientlist_use w ->
    tk_bulk t = (0, len) ->
    0 < len ->
    Forall (takes_all len) (tk_writes t) ->
    Z.of_nat (length (tk_writes t)) = clientlist_use w ->
    stream_loop bo (t :: ticks) count w
    = stream_loop bo ticks (wrap32 (count + 1))
        (mkWorld (clientlist w) (clientlist_use w)
           (trace w
            ++ map (fun p => Read (fst p) (io_n (snd p)))
                   (combine (registry w) (tk_reads t))
            ++ [UsbBulkIn 0 len;
                Printf (MsgVideo (clientlist_use w) count (Z.quot len 1024))]
            ++ map (fun fd => Write fd 0 len len) (registry w))).
Proof.
  intros bo t ticks count len w Huse Hmax [Hnone Hwb] Hq Hreads Hbulk Hlen
    Hw Hwrites.
  cbn [stream_loop]. unfold stream_iteration.
  assert (Hacc : accept_any_connection (tk_accept t) w = w).
  { unfold accept_any_connection.
    destruct (Z.ltb_spec (acc_fd (tk_accept t)) 0); [| lia].
    rewrite Hwb. reflexivity. }
  rewrite Hacc. unfold recv_and_discard.
  rewrite recv_loop_quiet; try assumption; try lia.
  2: { unfold peers_from. cbn [Z.to_nat skipn]. unfold registry.
       rewrite length_firstn. lia. }
  rewrite Hbulk. unfold classify_bulk_in.
  change (0 =? LIBUSB_ERROR_TIMEOUT) with false.
  change (0 =? LIBUSB_ERROR_IO) with false.
  change (0 =? LIBUSB_ERROR_NO_DEVICE) with false.
  change (0 =? LIBUSB_ERROR_NOT_FOUND) with false.
  change (0 =? 0) with true. cbn [andb negb].
  rewrite <- (app_nil_r (tk_writes t)). unfold send_to_socket.
  rewrite send_loop_full; try assumption;
    cbn [clientlist clientlist_use log]; try lia.
  rewrite Z.add_0_l, Hwrites. cbn [send_loop clientlist_use].
  rewrite Z.ltb_irrefl. f_equal. f_equal.
  assert (Hreg : firstn (length (tk_writes t)) (registry w) = registry w).
  { apply firstn_all2. unfold registry. rewrite length_firstn. lia. }
  cbn [trace log clientlist clientlist_use].
  unfold reads_in_order, peers_from, registry in *.
  cbn [Z.to_nat skipn trace log clientlist clientlist_use].
  rewrite Hreg, <- !app_assoc. reflexivity.
Qed.

Lemma frame_reaches_every_client_witness :
  stream_loop LittleEndian
    [mkTick nothing_pending
       [mkIo (-1) EAGAIN; mkIo (-1) EAGAIN; mkIo (-1) EAGAIN]
       (0, 4096)
       [mkIo 4096 0; mkIo 4096 0; mkIo 4096 0];
     device_gone_tick] 7 small_registry
  = stream_loop LittleEndian [device_gone_tick] (wrap32 (7 + 1))
      (mkWorld [3; 4; 5; 0] 3
         [Read 3 (-1); Read 4 (-1); Read 5 (-1);
          UsbBulkIn 0 4096; Printf (MsgVideo 3 7 4);
          Write 3 0 4096 4096; Write 4 0 4096 4096; Write 5 0 4096 4096]).
Proof.
  apply (frame_reaches_every_client LittleEndian
           (mkTick nothing_pending
              [mkIo (-1) EAGAIN; mkIo (-1) EAGAIN; mkIo (-1) EAGAIN]
              (0, 4096)
              [mkIo 4096 0; mkIo 4096 0; mkIo 4096 0])
           [device_gone_tick] 7 4096 small_registry).
  - simpl. lia.
  - reflexivity.
  - split; [simpl; lia | reflexivity].
  - repeat (apply Forall_cons; [split; [simpl; lia | reflexivity] |]).
    apply Forall_nil.
  - reflexivity.
  - reflexivity.
  - lia.
  - repeat (apply Forall_cons; [reflexivity |]). apply Forall_nil.
  - reflexivity.
Defined.

(** ** The classes of a failed bulk read *)

(** After the accept and the drain, an iteration of the streaming loop is
    decided by the result of the bulk IN transfer. *)
Lemma stream_iteration_bulk bo t count w w1 r success :
  tk_bulk t = (r, success) ->
  recv_and_discard bo (tk_reads t) (accept_any_connection (tk_accept t) w)
  = Some w1 ->
  stream_iteration bo t count w
  = classify_bulk_in bo r success (tk_writes t) count
      (log (UsbBulkIn r success) w1).
Proof.
  intros Hbulk Hdrain. unfold stream_iteration.
  rewrite Hdrain, Hbulk. reflexivity.
Qed.

Lemma log_twice e1 e2 w :
  log e2 (log e1 w)
  = mkWorld (clientlist w) (clientlist_use w) (trace w ++ [e1; e2]).
Proof.
  unfold log. cbn [clientlist clientlist_use trace].
  rewrite <- app_assoc. reflexivity.
Qed.

Lemma stream_loop_no_signal bo idle : forall count w,
  Forall (fun t => tk_bulk t = (LIBUSB_ERROR_TIMEOUT, 0)) idle ->
  stream_loop bo idle count w = None.
Proof.
  induction idle as [| t idle IH]; intros count w Hidle.
  - reflexivity.
  - inversion Hidle as [| ? ? Hbulk Hrest]; subst.
    cbn [stream_loop]. unfold stream_iteration.
    destruct (recv_and_discard bo (tk_reads t) _) as [w1 |];
      [| reflexivity].
    rewrite Hbulk. cbn. apply IH, Hrest.
Qed.

(** No video signal.  When the bulk read times out with nothing
    transferred, the iteration makes three calls after the drain (the
    transfer, the status line, a sleep of 0.5 s), leaves the registry as
    the drain left it, and the loop goes on with its next iteration, the
    packet counter restarting at 1.  However many such reads follow one
    another, [start_stream]'s loop does not return during them. *)
Theorem no_signal_keeps_the_stream_open :
  forall bo t ticks count w w1,
    tk_bulk t = (LIBUSB_ERROR_TIMEOUT, 0) ->
    recv_and_discard bo (tk_reads t) (accept_any_connection (tk_accept t) w)
    = Some w1 ->
    stream_loop bo (t :: ticks) count w
    = stream_loop bo ticks 1
        (mkWorld (clientlist w1) (clientlist_use w1)
           (trace w1 ++ [UsbBulkIn LIBUSB_ERROR_TIMEOUT 0;
                         Printf MsgVideoOff; Usleep 500000]))
    /\ forall idle count' w',
         Forall (fun t' => tk_bulk t' = (LIBUSB_ERROR_TIMEOUT, 0)) idle ->
         stream_loop bo idle count' w' = None.
Proof.
  intros bo t ticks count w w1 Hbulk Hdrain. split.
  - rewrite (stream_loop_next bo t ticks count 0 w
               (log (Usleep (500 * 1000))
                  (log (Printf MsgVideoOff)
                     (log (UsbBulkIn LIBUSB_ERROR_TIMEOUT 0) w1)))).
    + rewrite log_twice. f_equal. unfold log.
      cbn [clientlist clientlist_use trace].
      rewrite <- app_assoc. reflexivity.
    + rewrite (stream_iteration_bulk bo t count w w1 _ _ Hbulk Hdrain).
      reflexivity.
  - intros idle count' w'. apply stream_loop_no_signal.
Qed.

Lemma no_signal_keeps_the_stream_open_witness :
  stream_loop LittleEndian [no_signal_tick; device_gone_tick] 7
    small_registry
  = stream_loop LittleEndian [device_gone_tick] 1
      (mkWorld [3; 4; 5; 0] 3
         [Read 3 (-1); Read 4 (-1); Read 5 (-1);
          UsbBulkIn LIBUSB_ERROR_TIMEOUT 0; Printf MsgVideoOff;
          Usleep 500000])
  /\ stream_loop LittleEndian [no_signal_tick; no_signal_tick] 7
       small_registry
     = None.
Proof.
  destruct (no_signal_keeps_the_stream_open LittleEndian no_signal_tick
              [device_gone_tick] 7 small_registry
              (mkWorld [3; 4; 5; 0] 3
                 [Read 3 (-1); Read 4 (-1); Read 5 (-1)])
              eq_refl eq_refl) as [Hstep Hidle].
  split; [exact Hstep | apply Hidle].
  apply Forall_cons; [reflexivity |].
  apply Forall_cons; [reflexivity | apply Forall_nil].
Defined.

(** The device has gone.  When the bulk read fails with an I/O error, with
    no-device or with not-found, whatever the number of bytes it reports,
    the iteration prints the matching line after the drain and
    [start_stream]'s loop returns WAIT_FOR_HOTPLUG at once: nothing is
    written to a peer, nobody is removed, and the supervisor answers the
    value by waiting and retrying. *)
Theorem device_gone_ends_the_stream_with_the_restart_signal :
  forall bo t ticks count w w1 r success,
    tk_bulk t = (r, success) ->
    r = LIBUSB_ERROR_IO \/ r = LIBUSB_ERROR_NO_DEVICE
    \/ r = LIBUSB_ERROR_NOT_FOUND ->
    recv_and_discard bo (tk_reads t) (accept_any_connection (tk_accept t) w)
    = Some w1 ->
    stream_loop bo (t :: ticks) count w
    = Some (WAIT_FOR_HOTPLUG,
            mkWorld (clientlist w1) (clientlist_use w1)
              (trace w1
               ++ [UsbBulkIn r success;
                   Printf (if r =? LIBUSB_ERROR_IO then MsgWaitIo
                           else if r =? LIBUSB_ERROR_NO_DEVICE
                                then MsgWaitNoDev
                                else MsgWaitNotFound)]))
    /\ supervise WAIT_FOR_HOTPLUG = WaitAndRetry.
Proof.
  intros bo t ticks count w w1 r success Hbulk Hr Hdrain.
  split; [| reflexivity].
  apply stream_loop_return.
  rewrite (stream_iteration_bulk bo t count w w1 _ _ Hbulk Hdrain).
  rewrite <- log_twice.
  destruct Hr as [-> | [-> | ->]]; reflexivity.
Qed.

Lemma device_gone_ends_the_stream_with_the_restart_signal_witness :
  stream_loop LittleEndian
    [failing_tick LIBUSB_ERROR_IO 512; no_signal_tick] 7 small_registry
  = Some (WAIT_FOR_HOTPLUG,
          mkWorld [3; 4; 5; 0] 3
            [Read 3 (-1); Read 4 (-1); Read 5 (-1);
             UsbBulkIn LIBUSB_ERROR_IO 512; Printf MsgWaitIo])
  /\ supervise WAIT_FOR_HOTPLUG = WaitAndRetry.
Proof.
  exact (device_gone_ends_the_stream_with_the_restart_signal LittleEndian
           (failing_tick LIBUSB_ERROR_IO 512) [no_signal_tick] 7
           small_registry
           (mkWorld [3; 4; 5; 0] 3 [Read 3 (-1); Read 4 (-1); Read 5 (-1)])
           LIBUSB_ERROR_IO 512 eq_refl (or_introl eq_refl) eq_refl).
Defined.

(** Any other failure.  When the bulk read returns a non-zero result that
    is neither of the three above nor a timeout with nothing transferred,
    the iteration prints the result after the drain and [start_stream]'s
    loop returns it unchanged at once, with nothing written to a peer and
    nobody removed.  The supervisor takes the value, libusb's errors being
    negative, for a failure and leaves its loop. *)
Theorem other_bulk_error_ends_the_stream :
  forall bo t ticks count w w1 r success,
    tk_bulk t = (r, success) ->
    r <> 0 ->
    r <> LIBUSB_ERROR_IO -> r <> LIBUSB_ERROR_NO_DEVICE ->
    r <> LIBUSB_ERROR_NOT_FOUND ->
    (r = LIBUSB_ERROR_TIMEOUT -> success <> 0) ->
    recv_and_discard bo (tk_reads t) (accept_any_connection (tk_accept t) w)
    = Some w1 ->
    stream_loop bo (t :: ticks) count w
    = Some (r,
            mkWorld (clientlist w1) (clientlist_use w1)
              (trace w1
               ++ [UsbBulkIn r success; Printf (MsgRx success r)]))
    /\ (r < 0 -> supervise r = ExitFailed).
Proof.
  intros bo t ticks count w w1 r success Hbulk H0 Hio Hnodev Hnf Hto Hdrain.
  split; [| apply supervise_negative].
  apply stream_loop_return.
  rewrite (stream_iteration_bulk bo t count w w1 _ _ Hbulk Hdrain).
  assert (E : classify_bulk_in bo r success (tk_writes t) count
                (log (UsbBulkIn r success) w1)
              = Some (Return_ r,
                      log (Printf (MsgRx success r))
                        (log (UsbBulkIn r success) w1))).
  { unfold classify_bulk_in.
    destruct (Z.eqb_spec r LIBUSB_ERROR_TIMEOUT) as [Er | Er]; simpl.
    - specialize (Hto Er).
      destruct (Z.eqb_spec success 0); [contradiction |].
      ztests. reflexivity.
    - ztests. reflexivity. }
  rewrite E, log_twice. reflexivity.
Qed.

Lemma other_bulk_error_ends_the_stream_witness :
  stream_loop LittleEndian
    [failing_tick LIBUSB_ERROR_BUSY 0; no_signal_tick] 7 small_registry
  = Some (LIBUSB_ERROR_BUSY,
          mkWorld [3; 4; 5; 0] 3
            [Read 3 (-1); Read 4 (-1); Read 5 (-1);
             UsbBulkIn LIBUSB_ERROR_BUSY 0;
             Printf (MsgRx 0 LIBUSB_ERROR_BUSY)])
  /\ supervise LIBUSB_ERROR_BUSY = ExitFailed.
Proof.
  destruct (other_bulk_error_ends_the_stream LittleEndian
              (failing_tick LIBUSB_ERROR_BUSY 0) [no_signal_tick] 7
              small_registry
              (mkWorld [3; 4; 5; 0] 3
                 [Read 3 (-1); Read 4 (-1); Read 5 (-1)])
              LIBUSB_ERROR_BUSY 0) as [Hret Hfatal];
    try reflexivity; try discriminate.
  split; [exact Hret | apply Hfatal; reflexivity].
Defined.
